(** * squiggles / curvy core: closed-form polynomial and matrix engine

    A shallow embedding of the TypeScript sources of the core package
    (quadratic polynomials, 4x4 matrices, the curve facade, segment
    chunking) together with the properties stated about them.

    JavaScript numbers are IEEE 754 binary64 values.  They are embedded
    as [spec_float] with the standard library's executable operations at
    precision 53 and maximal exponent 1024, so that the definitions
    below evaluate on concrete inputs the way the engine does,
    including signed zeros, infinities and NaN.  Helpers that the
    sources import from files that are not part of them are modelled
    from the specification and marked as such. *)

From Stdlib Require Import ZArith Bool Lia Floats.SpecFloat.
From stdpp Require Import gmap strings list.

Open Scope Z_scope.

(** ** JavaScript numbers *)

Module Number.

Definition number := spec_float.

Definition prec : Z := 53.
Definition emax : Z := 1024.

Definition add : number -> number -> number := SFadd prec emax.
Definition sub : number -> number -> number := SFsub prec emax.
Definition mul : number -> number -> number := SFmul prec emax.
Definition div : number -> number -> number := SFdiv prec emax.
Definition neg : number -> number := SFopp.
Definition sqrt : number -> number := SFsqrt prec emax.

(** [x === y] on numbers: NaN differs from itself, [+0 === -0]. *)
Definition eqb : number -> number -> bool := SFeqb.
Definition ltb : number -> number -> bool := SFltb.
Definition leb : number -> number -> bool := SFleb.
Definition gtb (x y : number) : bool := ltb y x.
Definition geb (x y : number) : bool := leb y x.

(** An integer literal, correctly rounded. *)
Definition ofZ (z : Z) : number := binary_normalize prec emax z 0 false.

Definition zero : number := S754_zero false.
Definition NaN : number := S754_nan.
Definition Infinity : number := S754_infinity false.

(** [Number.isFinite]. *)
Definition isFinite (x : number) : bool :=
  match x with
  | S754_zero _ | S754_finite _ _ _ => true
  | S754_infinity _ | S754_nan => false
  end.

Definition isNaN (x : number) : bool :=
  match x with S754_nan => true | _ => false end.

(** [x ** 2].  The sources only ever raise to the power two; the
    exponentiation is taken as the correctly rounded square. *)
Definition pow2 (x : number) : number := mul x x.

(** [Math.min] and [Math.max] on two arguments: NaN is contagious and
    [-0] is below [+0]. *)
Definition min (x y : number) : number :=
  if isNaN x || isNaN y then NaN
  else if ltb x y then x
  else if ltb y x then y
  else match x with S754_zero true => x | _ => y end.

Definition max (x y : number) : number :=
  if isNaN x || isNaN y then NaN
  else if ltb x y then y
  else if ltb y x then x
  else match x with S754_zero false => x | _ => y end.

End Number.

Import Number.

Declare Scope js_scope.
Delimit Scope js_scope with js.
Bind Scope js_scope with number.
Notation "x + y" := (add x y) : js_scope.
Notation "x - y" := (sub x y) : js_scope.
Notation "x * y" := (mul x y) : js_scope.
Notation "x / y" := (div x y) : js_scope.
Notation "- x" := (neg x) : js_scope.
Notation "x === y" := (eqb x y) (at level 70, no associativity) : js_scope.
Notation "x <? y" := (ltb x y) : js_scope.
Notation "x <=? y" := (leb x y) : js_scope.
Notation "x >? y" := (gtb x y) : js_scope.
Notation "x >=? y" := (geb x y) : js_scope.
Notation "# z" := (ofZ z) (at level 1, format "# z") : js_scope.

(** ** Failures

    The sources signal every failure by a thrown error ([invariant]).
    The kinds below are the classification of section 7 of the
    specification; [TypeError] stands for the engine's own error when a
    property of [undefined] is read. *)

Inductive failure : Set :=
  | InvalidInterval
  | InvalidChunking
  | InvalidInput
  | SingularMatrix
  | NonMonotonicAxis
  | RootUnsolvable
  | TypeError.

Inductive result (A : Type) : Type :=
  | Ok (a : A)
  | Err (f : failure).

Arguments Ok {A} a.
Arguments Err {A} f.

Definition bind {A B : Type} (r : result A) (k : A -> result B) : result B :=
  match r with
  | Ok a => k a
  | Err f => Err f
  end.

Notation "'do' x <- r ; k" := (bind r (fun x => k))
  (at level 10, x name, r at level 100, k at level 200).

(** [invariant(condition, message)]: throws unless the condition holds. *)
Definition invariant (condition : bool) (f : failure) : result unit :=
  if condition then Ok tt else Err f.

(** ** util *)

Module Util.

Definition PRECISION : Z := 12.
Definition PRECISION_MAX : Z := 12.

(** [10 ** precision]. *)
Definition pow10 (precision : Z) : number :=
  if 0 <=? precision then ofZ (10 ^ precision)
  else (ofZ 1 / ofZ (10 ^ (- precision)))%js.

(** Section 6 of the specification: a precision is an integer between 0
    and 15. *)
Definition validPrecision (precision : Z) : Prop := 0 <= precision <= 15.

(** The nearest integer, ties away from zero. *)
Definition roundHalfAway (x : number) : number :=
  match x with
  | S754_finite s m e =>
      if 0 <=? e then x
      else
        let d := 2 ^ (- e) in
        let q := Z.pos m / d in
        let r := Z.pos m mod d in
        let n := if d <=? 2 * r then q + 1 else q in
        binary_normalize prec emax (cond_Zopp s n) 0 s
  | _ => x
  end.

(** Modelled from the spec: [round] of [src/util] is not among the
    sources.  Section 4.1: [round(value, precision)] rounds to
    [precision] decimal digits, half away from zero, and returns its
    input unchanged when [precision] is [PRECISION_MAX]. *)
Definition round (value : number) (precision : Z) : number :=
  if precision =? PRECISION_MAX then value
  else
    let scale := pow10 precision in
    (roundHalfAway (value * scale) / scale)%js.

(** Modelled from the spec: [minMax] of [src/util] is not among the
    sources; it is the pair of the smaller and the larger argument. *)
Definition minMax (a b : number) : number * number :=
  (Number.min a b, Number.max a b).

End Util.

Import Util.

(** ** Monotonicity *)

Inductive Monotonicity : Set :=
  | increasing
  | decreasing
  | constant
  | none.

(** Modelled from the spec: [guaranteedMonotonicityFromComparison] of
    [src/polynomial/monotonicity] is not among the sources.  Section
    4.8: [increasing] when [ye > ys], [decreasing] when [ye < ys],
    [constant] when they are equal. *)
Definition guaranteedMonotonicityFromComparison (ys ye : number) : Monotonicity :=
  if (ye >? ys)%js then increasing
  else if (ye <? ys)%js then decreasing
  else constant.

(** ** Interval *)

Module Interval.

Record Interval : Set := Build {
  start : number;
  end_ : number;
  precision : Z
}.

(** Modelled from the spec: [src/interval] is not among the sources.
    Section 4.4: [make(start, end, precision)] fails with
    InvalidInterval when [end < start]. *)
Definition make (start end_ : number) (precision : Z) : result Interval :=
  do _ <- invariant (negb (end_ <? start)%js) InvalidInterval;
  Ok (Build (round start precision) (round end_ precision) precision).

(** Modelled from the spec: section 4.4, [size = end - start]. *)
Definition size (i : Interval) : number := (end_ i - start i)%js.

(** Modelled from the spec: section 4.4,
    [contains(i, x, {includeStart = true, includeEnd = true})]. *)
Definition contains (i : Interval) (x : number) (includeStart includeEnd : bool) : bool :=
  (if includeStart then (start i <=? x)%js else (start i <? x)%js)
  && (if includeEnd then (x <=? end_ i)%js else (x <? end_ i)%js).

End Interval.

(** ** Linear polynomials *)

Module Linear.

Record LinearPolynomial : Set := Build {
  c0 : number;
  c1 : number;
  precision : Z
}.

(** Modelled from the spec: [src/polynomial/linear.internal] is not among
    the sources.  Section 3: all stored scalars are rounded to the
    instance's precision at construction. *)
Definition make (c0 c1 : number) (precision : Z) : LinearPolynomial :=
  Build (round c0 precision) (round c1 precision) precision.

(** Modelled from the spec: section 4.5,
    [solve(p, x) = round(c0 + c1 * x, precision)]. *)
Definition solve (p : LinearPolynomial) (x : number) : number :=
  round (c0 p + x * c1 p)%js (precision p).

(** Modelled from the spec: section 4.5, [solveInverse(p, y)] is the
    unique root [(y - c0) / c1] when [c1] is non-zero and none ([null])
    when [c1 = 0]. *)
Definition solveInverse (p : LinearPolynomial) (y : number) : option number :=
  if (c1 p === zero)%js then None
  else Some (round ((y - c0 p) / c1 p)%js (precision p)).

(** Modelled from the spec: section 4.5, [root(p) = solveInverse(p, 0)]. *)
Definition root (p : LinearPolynomial) : option number := solveInverse p zero.

(** Modelled from the spec: section 4.5, [increasing] if [c1 > 0],
    [decreasing] if [c1 < 0], [constant] if [c1 = 0]. *)
Definition monotonicity (p : LinearPolynomial) : Monotonicity :=
  if (c1 p >? zero)%js then increasing
  else if (c1 p <? zero)%js then decreasing
  else constant.

End Linear.

(** ** Array helpers *)

(** The place of [pivot] in an ordered array: before the first element
    the comparator puts it in front of. *)
Fixpoint insertBy (compare : number -> number -> number)
    (pivot : number) (sorted : list number) : list number :=
  match sorted with
  | [] => [pivot]
  | x :: rest =>
      if (compare pivot x <? zero)%js then pivot :: x :: rest
      else x :: insertBy compare pivot rest
  end.

(** [Array.prototype.toSorted(compare)]: a stable sort; an element is
    moved in front of another one only when the comparator returns a
    negative number for the two (NaN counts as zero). *)
Definition toSorted (compare : number -> number -> number) (xs : list number) : list number :=
  foldl (fun sorted pivot => insertBy compare pivot sorted) [] xs.

(** [null] read as a number in a comparison is [+0]. *)
Definition asNumber (v : option number) : number := default zero v.

(** ** Quadratic polynomials (src/polynomial/quadratic.internal.ts) *)

Module Quadratic.

Record QuadraticPolynomial : Set := Build {
  c0 : number;
  c1 : number;
  c2 : number;
  precision : Z
}.

(** [make]: the constructor [QuadraticPolynomialImpl] is not among the
    sources; it stores its scalars rounded to the precision, as the
    matrix constructor of the sources does. *)
Definition make (c0 c1 c2 : number) (precision : Z) : QuadraticPolynomial :=
  Build (round c0 precision) (round c1 precision) (round c2 precision) precision.

(** [round(p.c0 + x * p.c1 + x ** 2 * p.c2, p.precision)] *)
Definition solve (p : QuadraticPolynomial) (x : number) : number :=
  round (c0 p + x * c1 p + pow2 x * c2 p)%js (precision p).

Definition toSolver (p : QuadraticPolynomial) : number -> number :=
  fun x => solve p x.

(** The constant [discriminant] of [solveInverse]:
    [p.c1 ** 2 - 4 * p.c2 * (p.c0 - y)]. *)
Definition discriminant (p : QuadraticPolynomial) (y : number) : number :=
  (pow2 (c1 p) - #4 * c2 p * (c0 p - y))%js.

(** [solveInverse] (lines 37-57): three branches on the discriminant
    and none on [p.c2]. *)
Definition solveInverse (p : QuadraticPolynomial) (y : number) : list number :=
  let discriminant := discriminant p y in
  if (discriminant <? zero)%js then []
  else if (discriminant === zero)%js then
    [round (- c1 p / (#2 * c2 p))%js (precision p)]
  else
    let sqrtDiscriminant := sqrt discriminant in
    toSorted (fun a b => a - b)%js
      [ round ((- c1 p + sqrtDiscriminant) / (#2 * c2 p))%js (precision p);
        round ((- c1 p - sqrtDiscriminant) / (#2 * c2 p))%js (precision p) ].

Definition toInverseSolver (p : QuadraticPolynomial) : number -> list number :=
  fun y => solveInverse p y.

(** [Linear.make(p.c1, p.c2 * 2, p.precision)] *)
Definition derivative (p : QuadraticPolynomial) : Linear.LinearPolynomial :=
  Linear.make (c1 p) (c2 p * #2)%js (precision p).

(** [roots] (lines 67-77); the interval is optional. *)
Definition roots (p : QuadraticPolynomial) (interval : option Interval.Interval) : list number :=
  let roots := solveInverse p zero in
  match interval with
  | None => roots
  | Some interval =>
      let '(min, max) := minMax (Interval.start interval) (Interval.end_ interval) in
      filter (fun root => (root >=? min)%js && (root <=? max)%js = true) roots
  end.

(** [derivative(p).pipe(Linear.solveInverse(0)) ?? (p.c2 === 0 ? null : 0)] *)
Definition extreme (p : QuadraticPolynomial) : option number :=
  match Linear.solveInverse (derivative p) zero with
  | Some e => Some e
  | None => if (c2 p === zero)%js then None else Some zero
  end.

(** [monotonicity] (lines 82-115); [e] is [extreme(p) as number]. *)
Definition monotonicity (p : QuadraticPolynomial) (i : option Interval.Interval) : Monotonicity :=
  if (c2 p === zero)%js && (c1 p === zero)%js then constant
  else if (c2 p === zero)%js then
    Linear.monotonicity (Linear.make (c0 p) (c1 p) (precision p))
  else
    let e := asNumber (extreme p) in
    if match i with Some i => (Interval.size i === zero)%js | None => false end
    then constant
    else
      match i with
      | None => none
      | Some i =>
          if Interval.contains i e false false then none
          else guaranteedMonotonicityFromComparison
                 (solve p (Interval.start i)) (solve p (Interval.end_ i))
      end.

End Quadratic.

(** ** Vectors and 3x3 matrices *)

Module Vector4.

Record Vector4 : Set := Build {
  v0 : number;
  v1 : number;
  v2 : number;
  v3 : number;
  precision : Z
}.

(** Modelled from the spec: [src/vector/vector4.internal] is not among
    the sources.  Section 3: the components are rounded to the precision
    at construction. *)
Definition vector4 (v0 v1 v2 v3 : number) (precision : Z) : Vector4 :=
  Build (round v0 precision) (round v1 precision)
        (round v2 precision) (round v3 precision) precision.

(** Modelled from the spec: section 4.2, [components] is the ordered
    sequence of the components. *)
Definition components (v : Vector4) : list number := [v0 v; v1 v; v2 v; v3 v].

(** Modelled from the spec: section 4.2, [dot]; the precision of a
    derived value is the minimum of the operands' precisions. *)
Definition dot (a b : Vector4) : number :=
  round (v0 a * v0 b + v1 a * v1 b + v2 a * v2 b + v3 a * v3 b)%js
        (Z.min (precision a) (precision b)).

End Vector4.

Module Matrix3x3.

Record Matrix3x3 : Set := Build {
  m00 : number; m01 : number; m02 : number;
  m10 : number; m11 : number; m12 : number;
  m20 : number; m21 : number; m22 : number;
  precision : Z
}.

(** Modelled from the spec: [src/matrix/matrix3x3.internal] is not among
    the sources.  Section 3: row-major entries, rounded at construction. *)
Definition make (m00 m01 m02 m10 m11 m12 m20 m21 m22 : number) (precision : Z) : Matrix3x3 :=
  Build (round m00 precision) (round m01 precision) (round m02 precision)
        (round m10 precision) (round m11 precision) (round m12 precision)
        (round m20 precision) (round m21 precision) (round m22 precision)
        precision.

(** Modelled from the spec: section 4.3, [determinant]: the expansion
    along the first row, rounded as the 4x4 determinant of the sources
    is. *)
Definition determinant (m : Matrix3x3) : number :=
  round (m00 m * (m11 m * m22 m - m12 m * m21 m)
         - m01 m * (m10 m * m22 m - m12 m * m20 m)
         + m02 m * (m10 m * m21 m - m11 m * m20 m))%js PRECISION.

End Matrix3x3.

(** ** 4x4 matrices (src/matrix/matrix4x4.internal.ts) *)

Module Matrix4x4.

Import Vector4.

Record Matrix4x4 : Set := Build {
  m00 : number; m01 : number; m02 : number; m03 : number;
  m10 : number; m11 : number; m12 : number; m13 : number;
  m20 : number; m21 : number; m22 : number; m23 : number;
  m30 : number; m31 : number; m32 : number; m33 : number;
  precision : Z
}.

(** The constructor of [Matrix4x4Impl]. *)
Definition Matrix4x4Impl
    (m00 m01 m02 m03 m10 m11 m12 m13 m20 m21 m22 m23 m30 m31 m32 m33 : number)
    (precision : Z) : Matrix4x4 :=
  Build (round m00 precision) (round m01 precision) (round m02 precision) (round m03 precision)
        (round m10 precision) (round m11 precision) (round m12 precision) (round m13 precision)
        (round m20 precision) (round m21 precision) (round m22 precision) (round m23 precision)
        (round m30 precision) (round m31 precision) (round m32 precision) (round m33 precision)
        precision.

(** [make], every argument given (the source defaults an omitted entry
    to an earlier one and the precision to [PRECISION]). *)
Definition make
    (m00 m01 m02 m03 m10 m11 m12 m13 m20 m21 m22 m23 m30 m31 m32 m33 : number)
    (precision : Z) : Matrix4x4 :=
  Matrix4x4Impl m00 m01 m02 m03 m10 m11 m12 m13 m20 m21 m22 m23 m30 m31 m32 m33 precision.

(** [precision ?? Math.min(v0.precision, v1.precision, v2.precision, v3.precision)] *)
Definition precisionOr (precision : option Z) (v0 v1 v2 v3 : Vector4) : Z :=
  default (Z.min (Z.min (Z.min (Vector4.precision v0) (Vector4.precision v1))
                        (Vector4.precision v2)) (Vector4.precision v3))
          precision.

Definition fromRows (r0 r1 r2 r3 : Vector4) (precision : option Z) : Matrix4x4 :=
  Matrix4x4Impl
    (v0 r0) (v1 r0) (v2 r0) (v3 r0)
    (v0 r1) (v1 r1) (v2 r1) (v3 r1)
    (v0 r2) (v1 r2) (v2 r2) (v3 r2)
    (v0 r3) (v1 r3) (v2 r3) (v3 r3)
    (precisionOr precision r0 r1 r2 r3).

Definition fromColumns (c0 c1 c2 c3 : Vector4) (precision : option Z) : Matrix4x4 :=
  Matrix4x4Impl
    (v0 c0) (v0 c1) (v0 c2) (v0 c3)
    (v1 c0) (v1 c1) (v1 c2) (v1 c3)
    (v2 c0) (v2 c1) (v2 c2) (v2 c3)
    (v3 c0) (v3 c1) (v3 c2) (v3 c3)
    (precisionOr precision c0 c1 c2 c3).

Definition toRows (m : Matrix4x4) : list Vector4 :=
  [ vector4 (m00 m) (m01 m) (m02 m) (m03 m) (precision m);
    vector4 (m10 m) (m11 m) (m12 m) (m13 m) (precision m);
    vector4 (m20 m) (m21 m) (m22 m) (m23 m) (precision m);
    vector4 (m30 m) (m31 m) (m32 m) (m33 m) (precision m) ].

Definition toColumns (m : Matrix4x4) : list Vector4 :=
  [ vector4 (m00 m) (m10 m) (m20 m) (m30 m) (precision m);
    vector4 (m01 m) (m11 m) (m21 m) (m31 m) (precision m);
    vector4 (m02 m) (m12 m) (m22 m) (m32 m) (precision m);
    vector4 (m03 m) (m13 m) (m23 m) (m33 m) (precision m) ].

(** The element at [k] of an array that is destructured or spread; the
    arrays below always hold enough elements, the fallback stands for
    [undefined]. *)
Definition at_ {A : Type} (undefined : A) (xs : list A) (k : nat) : A :=
  default undefined (xs !! k).

Definition undefinedVector : Vector4 := Vector4.Build NaN NaN NaN NaN PRECISION.

(** A [Matrix4x4Coordinate] is one of 0, 1, 2, 3.  [xs.with(k, v)] is the
    list update and [xs.toSpliced(k, 1)] the list deletion. *)
Definition setRow (m : Matrix4x4) (row : nat) (v : Vector4) : Matrix4x4 :=
  let rows := <[row := v]> (toRows m) in
  fromRows (at_ undefinedVector rows 0) (at_ undefinedVector rows 1)
           (at_ undefinedVector rows 2) (at_ undefinedVector rows 3) None.

Definition setColumn (m : Matrix4x4) (column : nat) (v : Vector4) : Matrix4x4 :=
  let columns := <[column := v]> (toColumns m) in
  fromColumns (at_ undefinedVector columns 0) (at_ undefinedVector columns 1)
              (at_ undefinedVector columns 2) (at_ undefinedVector columns 3) None.

(** [minor] (lines 205-242): the columns of [m] without the one at
    [row], each without its component at [column], become the rows of
    the 3x3 matrix. *)
Definition minor (m : Matrix4x4) (row column : nat) : Matrix3x3.Matrix3x3 :=
  let vs := delete row (toColumns m) in
  let v0 := at_ undefinedVector vs 0 in
  let v1 := at_ undefinedVector vs 1 in
  let v2 := at_ undefinedVector vs 2 in
  let r0 := delete column (components v0) in
  let r1 := delete column (components v1) in
  let r2 := delete column (components v2) in
  Matrix3x3.make
    (at_ NaN r0 0) (at_ NaN r0 1) (at_ NaN r0 2)
    (at_ NaN r1 0) (at_ NaN r1 1) (at_ NaN r1 2)
    (at_ NaN r2 0) (at_ NaN r2 1) (at_ NaN r2 2)
    (precision m).

(** [determinant] (lines 197-203); [round] with its default precision. *)
Definition determinant (m : Matrix4x4) : number :=
  round (m00 m * Matrix3x3.determinant (minor m 0 0)
         - m01 m * Matrix3x3.determinant (minor m 0 1)
         + m02 m * Matrix3x3.determinant (minor m 0 2)
         - m03 m * Matrix3x3.determinant (minor m 0 3))%js PRECISION.

Definition vectorProductLeft (m : Matrix4x4) (v : Vector4) : Vector4 :=
  let rows := toRows m in
  vector4 (dot (at_ undefinedVector rows 0) v)
          (dot (at_ undefinedVector rows 1) v)
          (dot (at_ undefinedVector rows 2) v)
          (dot (at_ undefinedVector rows 3) v)
          (Z.min (precision m) (Vector4.precision v)).

Definition vectorProductRight (m : Matrix4x4) (v : Vector4) : Vector4 :=
  let columns := toColumns m in
  vector4 (dot v (at_ undefinedVector columns 0))
          (dot v (at_ undefinedVector columns 1))
          (dot v (at_ undefinedVector columns 2))
          (dot v (at_ undefinedVector columns 3))
          (Z.min (precision m) (Vector4.precision v)).

(** [solveSystem] (lines 281-295); the vector is built with the default
    precision. *)
Definition solveSystem (m : Matrix4x4) (v : Vector4) : result Vector4 :=
  let inverseDeterminant := (#1 / determinant m)%js in
  do _ <- invariant (isFinite inverseDeterminant) SingularMatrix;
  Ok (vector4 (determinant (setRow m 0 v) * inverseDeterminant)%js
              (determinant (setRow m 1 v) * inverseDeterminant)%js
              (determinant (setRow m 2 v) * inverseDeterminant)%js
              (determinant (setRow m 3 v) * inverseDeterminant)%js
              PRECISION).

End Matrix4x4.

(** ** The curve facade (src/curve.ts) *)

Module Curve.

#[global] Instance Monotonicity_eq_dec : EqDecision Monotonicity.
Proof. solve_decision. Defined.

(** A [CurveAxis] ([src/axis], not among the sources) is used through
    four of its members only; it is taken as that interface. *)
Record CurveAxis : Type := {
  monotonicity : Monotonicity;
  domain : Interval.Interval;
  solveT : number -> Interval.Interval -> list number;
  solvePosition : number -> number
}.

(** The variables of [createCurve] that [solveWhere] closes over. *)
Record Curve : Type := {
  axisKeys : list string;
  axes : gmap string CurveAxis
}.

Abbreviation Point := (gmap string number).

(** [axes[key]] followed by a member access: a missing key throws. *)
Definition axisOf (c : Curve) (key : string) : result CurveAxis :=
  match axes c !! key with
  | Some a => Ok a
  | None => Err TypeError
  end.

(** The axis handed to [solveWhere]: [Axis extends string | number], a
    name or a number. *)
Inductive Axis : Type :=
  | AxisName (name : string)
  | AxisIndex (index : number).

(** The property key that [axes[axis]] and [{ [axis]: ... }] use: the
    name itself, or the number converted to a string by [toString]
    (the conversion of numbers to strings is not modelled). *)
Definition propertyKey (toString : number -> string) (axis : Axis) : string :=
  match axis with
  | AxisName name => name
  | AxisIndex index => toString index
  end.

(** [key !== axis] for a [key] of [Object.keys], which is a string: a
    number is never strictly equal to a string. *)
Definition notStrictlyEqual (key : string) (axis : Axis) : bool :=
  match axis with
  | AxisName name => bool_decide (key <> name)
  | AxisIndex _ => true
  end.

(** The loop [for (const key of axisKeys)] of [solveWhere]. *)
Fixpoint solveRemaining (c : Curve) (axis : Axis) (t : number) (precision : Z)
    (keys : list string) (res : Point) : result Point :=
  match keys with
  | [] => Ok res
  | key :: keys =>
      if notStrictlyEqual key axis then
        do a <- axisOf c key;
        solveRemaining c axis t precision keys
          (<[key := round (solvePosition a t) precision]> res)
      else solveRemaining c axis t precision keys res
  end.

(** [t] is the first element of the array the axis returns;
    [invariant(typeof t === 'number', ...)] throws when there is none. *)
Definition solveWhere (toString : number -> string) (c : Curve) (axis : Axis)
    (position : number) (precision : Z) : result Point :=
  do curveAxis <- axisOf c (propertyKey toString axis);
  do _ <- invariant (bool_decide (monotonicity curveAxis <> none)) NonMonotonicAxis;
  match head (solveT curveAxis position (domain curveAxis)) with
  | None => Err RootUnsolvable
  | Some t =>
      let res : Point := {[ propertyKey toString axis := round position precision ]} in
      solveRemaining c axis t precision (axisKeys c) res
  end.

End Curve.

(** ** JavaScript values and [isMatrix4x4] *)

Module Value.

#[local] Set Warnings "-register-all".

Inductive value : Type :=
  | VUndefined
  | VNull
  | VBoolean (b : bool)
  | VNumber (n : number)
  | VBigInt (z : Z)
  | VString (s : string)
  | VSymbol (description : string)
  | VFunction (name : string)
  | VObject (properties : list (string * value)).

(** The [typeof] operator. *)
Definition typeof (v : value) : string :=
  match v with
  | VUndefined => "undefined"
  | VNull => "object"
  | VBoolean _ => "boolean"
  | VNumber _ => "number"
  | VBigInt _ => "bigint"
  | VString _ => "string"
  | VSymbol _ => "symbol"
  | VFunction _ => "function"
  | VObject _ => "object"
  end.

(** [key in v] for an object. *)
Definition hasProperty (key : string) (v : value) : bool :=
  match v with
  | VObject properties => bool_decide (key ∈ properties.*1)
  | _ => false
  end.

(** src/matrix/matrix4x4.internal.ts, line 84. *)
Definition isMatrix4x4 (m : value) : bool := bool_decide (typeof m = "object").

Definition matrixFields : list string :=
  [ "m00"; "m01"; "m02"; "m03"; "m10"; "m11"; "m12"; "m13";
    "m20"; "m21"; "m22"; "m23"; "m30"; "m31"; "m32"; "m33" ].

End Value.

(** ** Segment chunking and characteristic matrices *)

Module Splines.

(** The windows of length four of [seq] that start at 0, [stride],
    [2 * stride], ... *)
Fixpoint windows {A : Type} (count stride : nat) (seq : list A) : list (list A) :=
  match count with
  | O => []
  | S count => take 4 seq :: windows count stride (drop stride seq)
  end.

Definition validChunking (len : nat) (stride : Z) : bool :=
  (4 <=? Z.of_nat len)
  && ((stride =? 1) || (stride =? 2) || (stride =? 3))
  && ((Z.of_nat len - 4) mod stride =? 0).

(** Modelled from the spec: [toCubicScalars] of [src/splines] is not
    among the sources (its test is).  Section 4.10: the sequence is cut
    into overlapping windows of length 4 advancing by [stride]; it fails
    with InvalidChunking unless [seq.length >= 4], [stride] is 1, 2 or 3
    and [(seq.length - 4) mod stride == 0]. *)
Definition toCubicScalars {A : Type} (seq : list A) (stride : Z) : result (list (list A)) :=
  if validChunking (length seq) stride then
    Ok (windows (S (Z.to_nat ((Z.of_nat (length seq) - 4) / stride)))
                (Z.to_nat stride) seq)
  else Err InvalidChunking.

(** Modelled from the spec: section 4.10, the family helpers specialise
    [toCubicScalars] to the stride of the family. *)
Definition toBezierSegments {A : Type} (seq : list A) := toCubicScalars seq 3.
Definition toHermiteSegments {A : Type} (seq : list A) := toCubicScalars seq 2.
Definition toCardinalSegments {A : Type} (seq : list A) := toCubicScalars seq 1.
Definition toCatmullRomSegments {A : Type} (seq : list A) := toCubicScalars seq 1.
Definition toBSplineSegments {A : Type} (seq : list A) := toCubicScalars seq 1.

(** Modelled from the spec: the characteristic matrices of
    [src/splines] are not among the sources.  Section 4.9 lists the
    Cardinal(a) matrix as
    [[0,1,0,0],[-a,0,a,0],[2a,a-3,3-2a,-a],[-a,2-a,a-2,a]]. *)
Definition Cardinal_4_9 (a : number) : list (list number) :=
  [ [ #0; #1; #0; #0 ];
    [ - a; #0; a; #0 ];
    [ #2 * a; a - #3; #3 - #2 * a; - a ];
    [ - a; #2 - a; a - #2; a ] ]%js.

(** What the repository's test of [cardinal] (describe 'cardinal
    generator', src/unnamed/part_001, lines 95-105) expects
    [cardinal(a)] to be.  The function itself is not among the
    sources. *)
Definition cardinalExpected (a : number) : list (list number) :=
  [ [ - a; #2 - a; a - #2; a ];
    [ #2 * a; a - #3; #3 - #2 * a; - a ];
    [ - a; #0; a; #0 ];
    [ #0; #1; #0; #0 ] ]%js.

End Splines.

(** ** A small curve

    Three axes over the unit domain: [x] follows the parameter, [y]
    runs at twice its speed, [z] is not monotone. *)

Module SampleCurve.

Definition unitInterval : Interval.Interval := Interval.Build #0 #1 PRECISION.

Definition xAxis : Curve.CurveAxis := {|
  Curve.monotonicity := increasing;
  Curve.domain := unitInterval;
  Curve.solveT := fun position domain =>
    if Interval.contains domain position true true then [position] else [];
  Curve.solvePosition := fun t => t
|}.

Definition yAxis : Curve.CurveAxis := {|
  Curve.monotonicity := increasing;
  Curve.domain := unitInterval;
  Curve.solveT := fun position domain =>
    if Interval.contains domain (position / #2)%js true true
    then [(position / #2)%js] else [];
  Curve.solvePosition := fun t => (#2 * t)%js
|}.

Definition zAxis : Curve.CurveAxis := {|
  Curve.monotonicity := none;
  Curve.domain := unitInterval;
  Curve.solveT := fun position domain => [];
  Curve.solvePosition := fun t => (t * (#1 - t))%js
|}.

Definition curve : Curve.Curve := {|
  Curve.axisKeys := ["x"; "y"; "z"];
  Curve.axes := <["x" := xAxis]> (<["y" := yAxis]> (<["z" := zAxis]> ∅))
|}.

End SampleCurve.

(** ** More of the quadratic module *)

Module QuadraticGuards.

(** [isQuadraticPolynomial] (src/polynomial/quadratic.internal.ts, lines
    22-23): [typeof v === 'object' && v !== null && TypeId in v].  The
    type id is a symbol of a file that is not among the sources; it is
    taken as the key [typeId]. *)
Definition isQuadraticPolynomial (typeId : string) (v : Value.value) : bool :=
  bool_decide (Value.typeof v = "object")
  && match v with Value.VNull => false | _ => true end
  && Value.hasProperty typeId v.

(** [domain] (lines 129-144).  [Interval.fromMinMax] is not among the
    sources; it is taken as the function [fromMinMax] of the values it
    is spread. *)
Definition domain (fromMinMax : list number -> Interval.Interval)
    (p : Quadratic.QuadraticPolynomial) (range : Interval.Interval)
    : option Interval.Interval :=
  let start := Quadratic.solveInverse p (Interval.start range) in
  let end_ := Quadratic.solveInverse p (Interval.end_ range) in
  if (length start =? 0)%nat && (length end_ =? 0)%nat then None
  else Some (fromMinMax (Quadratic.solveInverse p (Interval.start range)
                         ++ Quadratic.solveInverse p (Interval.end_ range))).

End QuadraticGuards.

(** ** Entries of matrices by index *)

Module Entry.

(** The entry [m_ij] of a 4x4 matrix. *)
Definition of4 (m : Matrix4x4.Matrix4x4) (i j : nat) : number :=
  match i, j with
  | 0, 0 => Matrix4x4.m00 m | 0, 1 => Matrix4x4.m01 m
  | 0, 2 => Matrix4x4.m02 m | 0, 3 => Matrix4x4.m03 m
  | 1, 0 => Matrix4x4.m10 m | 1, 1 => Matrix4x4.m11 m
  | 1, 2 => Matrix4x4.m12 m | 1, 3 => Matrix4x4.m13 m
  | 2, 0 => Matrix4x4.m20 m | 2, 1 => Matrix4x4.m21 m
  | 2, 2 => Matrix4x4.m22 m | 2, 3 => Matrix4x4.m23 m
  | 3, 0 => Matrix4x4.m30 m | 3, 1 => Matrix4x4.m31 m
  | 3, 2 => Matrix4x4.m32 m | 3, 3 => Matrix4x4.m33 m
  | _, _ => NaN
  end%nat.

(** The entry [m_ij] of a 3x3 matrix. *)
Definition of3 (m : Matrix3x3.Matrix3x3) (i j : nat) : number :=
  match i, j with
  | 0, 0 => Matrix3x3.m00 m | 0, 1 => Matrix3x3.m01 m | 0, 2 => Matrix3x3.m02 m
  | 1, 0 => Matrix3x3.m10 m | 1, 1 => Matrix3x3.m11 m | 1, 2 => Matrix3x3.m12 m
  | 2, 0 => Matrix3x3.m20 m | 2, 1 => Matrix3x3.m21 m | 2, 2 => Matrix3x3.m22 m
  | _, _ => NaN
  end%nat.

(** The index that position [k] of an array has had before the element
    at [removed] was spliced out. *)
Definition skip (removed k : nat) : nat := if (k <? removed)%nat then k else S k.

(** Every entry of the matrix is unchanged by the rounding to the
    precision [precision]. *)
Definition storedAt (precision : Z) (m : Matrix4x4.Matrix4x4) : Prop :=
  forall i j, (i < 4)%nat -> (j < 4)%nat -> round (of4 m i j) precision = of4 m i j.

Definition vectorStoredAt (precision : Z) (v : Vector4.Vector4) : Prop :=
  Forall (fun x => round x precision = x) (Vector4.components v).

End Entry.

(** ** The rest of the curve facade (src/curve.ts) *)

Module CurveFacade.

(** [Object.keys(point)]: the keys of the point, each once.  The map
    lists them in its own order, which need not be the order of
    insertion; the record that is built per key does not depend on it. *)
Definition keysOf (point : Curve.Point) : list string := (map_to_list point).*1.

(** [points[0]] handed to [Object.keys]: [undefined] for an empty array,
    which throws. *)
Definition firstPoint (points : list Curve.Point) : result Curve.Point :=
  match points with
  | [] => Err TypeError
  | point :: _ => Ok point
  end.

(** The points are plain objects: beside its own entries a point
    inherits the members of [Object.prototype], which the [in] operator
    and a property read see too. *)
Definition objectPrototypeKeys : list string :=
  [ "constructor"; "hasOwnProperty"; "isPrototypeOf"; "propertyIsEnumerable";
    "toLocaleString"; "toString"; "valueOf";
    "__proto__"; "__defineGetter__"; "__defineSetter__";
    "__lookupGetter__"; "__lookupSetter__" ].

(** [key in point] *)
Definition inOperator (key : string) (point : Curve.Point) : bool :=
  bool_decide (is_Some (point !! key)) || bool_decide (key ∈ objectPrototypeKeys).

(** What [point[key]] gives when [key in point] holds: the number the
    point holds under [key], or the member of [Object.prototype] of that
    name, which is not a number. *)
Inductive Coordinate : Type :=
  | Own (x : number)
  | Inherited (key : string).

Definition getProperty (key : string) (point : Curve.Point) : Coordinate :=
  match point !! key with
  | Some x => Own x
  | None => Inherited key
  end.

(** The message [`Point ${point} is missing axis "${key}"`] is built
    before [invariant] is called, whether the condition holds or not.
    Converting the point to a string calls its [toString]; a point with
    an entry of that name holds a number there, which cannot be called,
    and [valueOf] does not give a primitive either: the conversion
    throws. *)
Definition templateLiteral (point : Curve.Point) : result unit :=
  if bool_decide (is_Some (point !! "toString")) then Err TypeError else Ok tt.

(** [for (const key of axisKeys) axisPoints[key] = []] *)
Definition initAxisPoints (axisKeys : list string) : gmap string (list Coordinate) :=
  foldl (fun axisPoints key => <[key := []]> axisPoints) ∅ axisKeys.

(** The inner loop over the keys for one point:
    [invariant(key in point, ...)] and [axisPoints[key].push(point[key])]. *)
Fixpoint pushPoint (point : Curve.Point) (keys : list string)
    (axisPoints : gmap string (list Coordinate)) : result (gmap string (list Coordinate)) :=
  match keys with
  | [] => Ok axisPoints
  | key :: keys =>
      let condition := inOperator key point in
      do _ <- templateLiteral point;
      do _ <- invariant condition InvalidInput;
      match axisPoints !! key with
      | None => Err TypeError
      | Some xs => pushPoint point keys (<[key := xs ++ [getProperty key point]]> axisPoints)
      end
  end.

(** The outer loop [for (const point of points)]. *)
Fixpoint collectPoints (points : list Curve.Point) (keys : list string)
    (axisPoints : gmap string (list Coordinate)) : result (gmap string (list Coordinate)) :=
  match points with
  | [] => Ok axisPoints
  | point :: points =>
      do axisPoints <- pushPoint point keys axisPoints;
      collectPoints points keys axisPoints
  end.

(** [axes[key] = createCurveAxis(spline.chunkCoefficients(axisPoints[key]))]:
    neither function is among the sources, their composition is the
    function [makeAxis], which may throw. *)
Fixpoint buildAxes (makeAxis : list Coordinate -> result Curve.CurveAxis)
    (axisPoints : gmap string (list Coordinate)) (keys : list string)
    (axes : gmap string Curve.CurveAxis) : result (gmap string Curve.CurveAxis) :=
  match keys with
  | [] => Ok axes
  | key :: keys =>
      match axisPoints !! key with
      | None => Err TypeError
      | Some xs =>
          do a <- makeAxis xs;
          buildAxes makeAxis axisPoints keys (<[key := a]> axes)
      end
  end.

(** The loop of [solveT]: [position[key] = round(axes[key].solvePosition(rounded), precision)]. *)
Fixpoint solveAll (c : Curve.Curve) (rounded : number) (precision : Z)
    (keys : list string) (position : Curve.Point) : result Curve.Point :=
  match keys with
  | [] => Ok position
  | key :: keys =>
      do a <- Curve.axisOf c key;
      solveAll c rounded precision keys
        (<[key := round (Curve.solvePosition a rounded) precision]> position)
  end.

(** [solveT] (lines 49-60); [round(t)] is at the default precision. *)
Definition solveT (c : Curve.Curve) (t : number) (precision : Z) : result Curve.Point :=
  let rounded := round t PRECISION in
  do _ <- invariant ((rounded >=? zero)%js && (rounded <=? #1)%js) InvalidInput;
  solveAll c rounded precision (Curve.axisKeys c) ∅.

(** [positionAt] (lines 64-81).  [lengthLookup] is the result of
    [createLengthLookup(solveT)], which is not among the sources. *)
Definition positionAt (c : Curve.Curve) (lengthLookup : number -> number)
    (input normalize : number) (precision : Z) : result Curve.Point :=
  do _ <- invariant ((input >=? zero)%js && (input <=? #1)%js) InvalidInput;
  let t :=
    if (normalize >? zero)%js then
      let denormalizedT := lengthLookup input in
      if (normalize === #1)%js then denormalizedT
      else ((#1 - normalize) * input + normalize * denormalizedT)%js
    else input in
  solveT c t precision.

(** [createCurve] (lines 26-115): the closure variables and the length
    lookup that [positionAt] and [solveWhere] are built over. *)
Definition createCurve
    (makeAxis : list Coordinate -> result Curve.CurveAxis)
    (createLengthLookup :
       (number -> Z -> result Curve.Point) -> result (number -> number))
    (points : list Curve.Point) : result (Curve.Curve * (number -> number)) :=
  do point0 <- firstPoint points;
  let axisKeys := keysOf point0 in
  do axisPoints <- collectPoints points axisKeys (initAxisPoints axisKeys);
  do axes <- buildAxes makeAxis axisPoints axisKeys ∅;
  let c := {| Curve.axisKeys := axisKeys; Curve.axes := axes |} in
  do lengthLookup <- createLengthLookup (solveT c);
  Ok (c, lengthLookup).

(** Every key has an entry in the record. *)
Definition covers {A : Type} (keys : list string) (axisPoints : gmap string A) : Prop :=
  forall key, key ∈ keys -> is_Some (axisPoints !! key).

End CurveFacade.

(** ** Drawing a spline as SVG (src/packages/visualize/src/drawSplineSVG.ts) *)

Module DrawSplineSVG.

Record Bounds : Set := { min : number; max : number }.

(** The members of a [CubicSpline] that the drawing reads. *)
Record CubicSpline : Type := {
  bounds : string -> Bounds;
  solveT : number -> string -> number
}.

(** The two kinds of options: [{ strategy: 'bezier' }] and
    [{ strategy: 'sample', sampleCount?: number }].  A sample count is
    taken as a natural number; the source does not check it. *)
Inductive Strategy : Set :=
  | bezier
  | sample (sampleCount : option nat).

(** [options.axes.x] and [options.axes.y] are the fields [axes_x] and
    [axes_y]. *)
Record Options : Set := {
  padding : option number;
  axes_x : string;
  axes_y : string;
  strategy : Strategy
}.

Definition DEFAULT_PADDING : number := #20.

Section Draw.

(** The conversion of a number to a string by a template literal or by
    [join]; its digits are not modelled. *)
Variable toString : number -> string.

Definition height (spline : CubicSpline) (options : Options) : number :=
  (max (bounds spline (axes_y options)) - min (bounds spline (axes_y options)))%js.

(** The opening tag; the four numbers are joined by spaces. *)
Definition openTag (spline : CubicSpline) (options : Options) : string :=
  let padding := default DEFAULT_PADDING (padding options) in
  let x := bounds spline (axes_x options) in
  let y := bounds spline (axes_y options) in
  ("<svg viewBox=" +:+ String (Ascii.ascii_of_nat 34) ""
   +:+ toString (min x - padding)%js +:+ " "
   +:+ toString (min y - padding)%js +:+ " "
   +:+ toString (max x - min x + padding * #2)%js +:+ " "
   +:+ toString (height spline options + padding * #2)%js
   +:+ String (Ascii.ascii_of_nat 34) "" +:+ ">")%string.

(** One round of the loop: the command for sample [i]. *)
Definition command (spline : CubicSpline) (options : Options)
    (segmentLength : number) (i : nat) : string :=
  let point := solveT spline (ofZ (Z.of_nat i) * segmentLength)%js in
  ((if (i =? 0)%nat then "M" else " L")
   +:+ toString (point (axes_x options)) +:+ ","
   +:+ toString (height spline options - point (axes_y options))%js)%string.

(** The loop [for (let i = 0; i < sampleCount; i++)]. *)
Definition samplePath (spline : CubicSpline) (options : Options) (sampleCount : nat)
    : string :=
  let segmentLength := (#1 / (ofZ (Z.of_nat sampleCount) - #1))%js in
  foldl (fun path i => (path +:+ command spline options segmentLength i)%string)
        ""%string (seq 0 sampleCount).

Definition pathTag (path : string) : string :=
  ("<path d=" +:+ String (Ascii.ascii_of_nat 34) "" +:+ path
   +:+ String (Ascii.ascii_of_nat 34) ""
   +:+ " stroke=" +:+ String (Ascii.ascii_of_nat 34) "" +:+ "black"
   +:+ String (Ascii.ascii_of_nat 34) ""
   +:+ " stroke-width=" +:+ String (Ascii.ascii_of_nat 34) "" +:+ "2"
   +:+ String (Ascii.ascii_of_nat 34) ""
   +:+ " fill=" +:+ String (Ascii.ascii_of_nat 34) "" +:+ "none"
   +:+ String (Ascii.ascii_of_nat 34) "" +:+ " />")%string.

Definition drawSplineSVG (spline : CubicSpline) (options : Options) : string :=
  let svg := openTag spline options in
  let svg :=
    match strategy options with
    | sample sampleCount =>
        (svg +:+ pathTag (samplePath spline options (default 100%nat sampleCount)))%string
    | bezier => svg
    end in
  (svg +:+ "</svg>")%string.

End Draw.

End DrawSplineSVG.

(** ** Sample data *)

Module Samples.

Definition matrix : Matrix4x4.Matrix4x4 :=
  Matrix4x4.make #1 #2 #3 #4 #5 #6 #7 #8 #9 #10 #11 #12 #13 #14 #15 #16 PRECISION.

Definition coarseMatrix : Matrix4x4.Matrix4x4 :=
  Matrix4x4.make #1 #2 #3 #4 #5 #6 #7 #8 #9 #10 #11 #12 #13 #14 #15 #16 2.

Definition points : list Curve.Point :=
  [ {[ "x" := #0; "y" := #0 ]}; {[ "x" := #1; "y" := #2 ]}; {[ "y" := #4; "x" := #2 ]} ]%js.

(** An axis that remembers the coordinates it was built from. *)
Definition axis (xs : list CurveFacade.Coordinate) : Curve.CurveAxis :=
  {| Curve.monotonicity := increasing;
     Curve.domain := SampleCurve.unitInterval;
     Curve.solveT := fun position domain => [position];
     Curve.solvePosition := fun t =>
       match head xs with
       | Some (CurveFacade.Own x) => x
       | _ => NaN
       end |}.

Definition makeAxis (xs : list CurveFacade.Coordinate) : result Curve.CurveAxis :=
  Ok (axis xs).

Definition createLengthLookup (solveT : number -> Z -> result Curve.Point)
    : result (number -> number) := Ok (fun x => x).

(** The curve that [createCurve] returns for [points]. *)
Definition createdCurve : Curve.Curve :=
  {| Curve.axisKeys := CurveFacade.keysOf {[ "x" := #0; "y" := #0 ]}%js;
     Curve.axes :=
       {[ "x" := axis (CurveFacade.Own <$> [ #0; #1; #2 ]%js);
          "y" := axis (CurveFacade.Own <$> [ #0; #2; #4 ]%js) ]} |}.



Definition spline : DrawSplineSVG.CubicSpline :=
  {| DrawSplineSVG.bounds := fun axis =>
       {| DrawSplineSVG.min := #0; DrawSplineSVG.max := #10 |};
     DrawSplineSVG.solveT := fun t axis => (#10 * t)%js |}.

Definition options (strategy : DrawSplineSVG.Strategy) : DrawSplineSVG.Options :=
  {| DrawSplineSVG.padding := None;
     DrawSplineSVG.axes_x := "x";
     DrawSplineSVG.axes_y := "y";
     DrawSplineSVG.strategy := strategy |}.

(** A stand-in for the conversion of numbers to strings. *)
Definition toString (x : number) : string :=
  if isNaN x then "NaN" else "n".

End Samples.

(** ** The roots within an interval, as the specification words them *)

(** The entries [r] of a sequence with [lo <= r <= hi], as often as
    they occur and in their order. *)
Fixpoint keepWithin (lo hi : number) (rs : list number) : list number :=
  match rs with
  | [] => []
  | r :: rs =>
      if (lo <=? r)%js && (r <=? hi)%js then r :: keepWithin lo hi rs
      else keepWithin lo hi rs
  end.

(** ** Magnitudes of numbers *)

(** [x] is an infinity or a finite number of absolute value at least
    [2 ^ (k - 1)]. *)
Definition magnitudeAtLeast (k : Z) (x : number) : Prop :=
  match x with
  | S754_infinity _ => True
  | S754_finite _ m e => k <= Z.pos (digits2_pos m) + e
  | _ => False
  end.

(** The same, with a full mantissa of 53 digits. *)
Definition normalAtLeast (k : Z) (x : number) : Prop :=
  match x with
  | S754_infinity _ => True
  | S754_finite _ m e => Z.pos (digits2_pos m) = 53 /\ k <= 53 + e
  | _ => False
  end.

(** * Properties *)

(** ** Facts about numbers *)

Lemma compare_antisym (x y : number) :
  SFcompare y x = CompOpp <$> SFcompare x y.
Proof.
  destruct x as [sx|sx| |sx mx ex], y as [sy|sy| |sy my ey];
    try destruct sx; try destruct sy; try reflexivity; simpl;
    rewrite (Z.compare_antisym ex ey);
    destruct (ex ?= ey); simpl; try reflexivity;
    try rewrite CompOpp_involutive; f_equal.
  - exact (Pos.compare_cont_antisym my mx Eq).
  - symmetry. exact (Pos.compare_cont_antisym mx my Eq).
Qed.

Lemma ltb_asym (x y : number) : (x <? y)%js = true -> (y <? x)%js = false.
Proof.
  unfold ltb, SFltb. rewrite (compare_antisym x y).
  destruct (SFcompare x y) as [[]|]; simpl; congruence.
Qed.

Lemma ltb_not_eqb (x y : number) : (x <? y)%js = true -> (x === y)%js = false.
Proof.
  unfold ltb, eqb, SFltb, SFeqb. destruct (SFcompare x y) as [[]|]; congruence.
Qed.

Lemma eqb_sym (x y : number) : (x === y)%js = (y === x)%js.
Proof.
  unfold eqb, SFeqb. rewrite (compare_antisym x y).
  destruct (SFcompare x y) as [[]|]; reflexivity.
Qed.

Lemma eqb_not_ltb (x y : number) : (x === y)%js = true -> (x <? y)%js = false.
Proof.
  unfold ltb, eqb, SFltb, SFeqb. destruct (SFcompare x y) as [[]|]; congruence.
Qed.

Lemma eqb_zero_inv (x : number) :
  (x === zero)%js = true -> exists s, x = S754_zero s.
Proof.
  destruct x as [s|s| |s m e]; [ now exists s | | | ]; try destruct s; cbv; discriminate.
Qed.

(** A rounded result below zero carries the negative sign. *)
Lemma binary_round_aux_negative (s : bool) (m e : Z) (l : location) :
  (binary_round_aux prec emax s m e l <? zero)%js = true -> s = true.
Proof.
  unfold binary_round_aux.
  destruct (shr_fexp prec emax m e l) as [mrs' e'].
  destruct (shr_fexp prec emax _ e' loc_Exact) as [mrs'' e''].
  destruct (shr_m mrs'') as [|q|q]; [ | destruct (e'' <=? emax - prec) | ];
    destruct s; cbv [ltb SFltb SFcompare zero]; congruence.
Qed.

Lemma binary_normalize_negative (z e : Z) :
  (binary_normalize prec emax z e false <? zero)%js = true -> z < 0.
Proof.
  destruct z as [|q|q]; simpl; [ cbv; discriminate | | lia ].
  unfold binary_round. destruct (shl_align q e _) as [mz ez].
  intros H. apply binary_round_aux_negative in H. discriminate.
Qed.

(** The comparator [a - b] is antisymmetric: if it puts [y] before [x]
    it does not put [x] before [y]. *)
Lemma sub_antisym (x y : number) :
  (y - x <? zero)%js = true -> (x - y <? zero)%js = false.
Proof.
  destruct x as [sx|sx| |sx mx ex], y as [sy|sy| |sy my ey];
    try (destruct sx, sy; cbv; congruence);
    try (destruct sx; cbv; congruence);
    try (destruct sy; cbv; congruence);
    try (cbv; congruence).
  unfold sub, SFsub. rewrite (Z.min_comm ex ey).
  set (ez := Z.min ey ex).
  set (a := cond_Zopp sx _). set (b := cond_Zopp sy _).
  intros H. apply binary_normalize_negative in H.
  destruct (binary_normalize prec emax (a - b) ez false <? zero)%js eqn:E; [ | reflexivity ].
  apply binary_normalize_negative in E. lia.
Qed.

(** *** Doubling

    [x * 2] for a finite [x]: the product of the mantissa with [2^52] is
    shifted back by 52 bits, or by 51 for a subnormal [x]. *)

Lemma digits_times_two52 (m : positive) :
  Z.pos (digits2_pos (Pos.iter xO m 52)) = Z.pos (digits2_pos m) + 52.
Proof.
  cbn [Pos.iter digits2_pos]. repeat rewrite Pos2Z.inj_succ. lia.
Qed.

Lemma shr_two52_by_52 (m : positive) :
  SpecFloat.iter_pos shr_1 52 (shr_record_of_loc (Z.pos (Pos.iter xO m 52)) loc_Exact)
  = shr_record_of_loc (Z.pos m) loc_Exact.
Proof. reflexivity. Qed.

Lemma shr_two52_by_51 (m : positive) :
  SpecFloat.iter_pos shr_1 51 (shr_record_of_loc (Z.pos (Pos.iter xO m 52)) loc_Exact)
  = shr_record_of_loc (Z.pos m~0) loc_Exact.
Proof. reflexivity. Qed.

Lemma mul_two_finite (s : bool) (m : positive) (e : Z) :
  bounded prec emax m e = true ->
  (S754_finite s m e * #2 === zero)%js = false.
Proof.
  unfold bounded, canonical_mantissa, fexp, emin, prec, emax.
  rewrite andb_true_iff, Z.eqb_eq, Z.leb_le. intros [Hc He].
  change (S754_finite s m e * #2)%js
    with (binary_round_aux 53 1024 (xorb s false) (Z.pos (m * 4503599627370496)) (e + -51) loc_Exact).
  rewrite Pos.mul_comm.
  change (4503599627370496 * m)%positive with (Pos.iter xO m 52).
  unfold binary_round_aux, shr_fexp, fexp, emin.
  cbn [Zdigits2]. rewrite digits_times_two52.
  set (d := Z.pos (digits2_pos m)) in *.
  assert (Hd : 0 < d) by (unfold d; lia).
  assert (Hn : (d = 53 /\ (d + 52 + (e + -51) - 53) `max` (3 - 1024 - 53) - (e + -51) = 52)
               \/ (d <= 52 /\ e = -1074
                   /\ (d + 52 + (e + -51) - 53) `max` (3 - 1024 - 53) - (e + -51) = 51))
    by lia.
  destruct Hn as [[Hd53 ->] | (Hd52 & He' & ->)]; unfold shr at 1.
  - rewrite shr_two52_by_52.
    cbn [shr_record_of_loc shr_m loc_of_shr_record round_nearest_even Zdigits2].
    fold d.
    replace ((d + (e + -51 + 52) - 53) `max` (3 - 1024 - 53) - (e + -51 + 52)) with 0 by lia.
    cbn [shr shr_m].
    destruct (e + -51 + 52 <=? 1024 - 53); now destruct s.
  - rewrite shr_two52_by_51.
    cbn [shr_record_of_loc shr_m loc_of_shr_record round_nearest_even Zdigits2 digits2_pos].
    rewrite Pos2Z.inj_succ. fold d.
    replace ((Z.succ d + (e + -51 + 51) - 53) `max` (3 - 1024 - 53) - (e + -51 + 51)) with 0 by lia.
    cbn [shr shr_m].
    destruct (e + -51 + 51 <=? 1024 - 53); now destruct s.
Qed.

(** Doubling a non-zero binary64 number does not give zero. *)
Lemma mul_two_nonzero (x : number) :
  valid_binary prec emax x = true ->
  (x === zero)%js = false -> (x * #2 === zero)%js = false.
Proof.
  destruct x as [s|s| |s m e]; intros Hv Hx.
  - now destruct s.
  - now destruct s.
  - reflexivity.
  - now apply mul_two_finite.
Qed.

Lemma toSorted_pair (compare : number -> number -> number) (x y : number) :
  toSorted compare [x; y] =
  if (compare y x <? zero)%js then [y; x] else [x; y].
Proof. reflexivity. Qed.

(** *** Rounded results are binary64 numbers

    The mantissa of a finite binary64 number has 53 binary digits, or
    fewer at the least exponent -1074.  The lemmas below follow the
    rounding of the standard library's specification step by step: the
    first shift leaves at most 53 digits, the rounding adds at most one,
    the second shift restores the format.  They give that every
    quotient is such a number and that the order of two such numbers
    agrees with the sign of their difference. *)

Lemma digits2_pos_bounds (m : positive) :
  2 ^ (Z.pos (digits2_pos m) - 1) <= Z.pos m < 2 ^ Z.pos (digits2_pos m).
Proof.
  induction m as [m IH|m IH|]; cbn [digits2_pos]; [ | | cbn; lia ];
    rewrite Pos2Z.inj_succ;
    replace (Z.succ (Z.pos (digits2_pos m)) - 1) with (Z.pos (digits2_pos m)) by lia;
    rewrite Z.pow_succ_r by lia;
    replace (2 ^ Z.pos (digits2_pos m)) with (2 * 2 ^ (Z.pos (digits2_pos m) - 1)) in *
      by (rewrite <- Z.pow_succ_r by lia; f_equal; lia);
    lia.
Qed.

Lemma iter_xO_value (q k : positive) :
  Z.pos (Pos.iter xO q k) = Z.pos q * 2 ^ Z.pos k.
Proof.
  induction k as [|k IH] using Pos.peano_ind.
  - cbn [Pos.iter]. lia.
  - rewrite Pos.iter_succ, Pos2Z.inj_xO, IH, Pos2Z.inj_succ, Z.pow_succ_r by lia. lia.
Qed.

Lemma iter_xO_digits (q k : positive) :
  Z.pos (digits2_pos (Pos.iter xO q k)) = Z.pos (digits2_pos q) + Z.pos k.
Proof.
  induction k as [|k IH] using Pos.peano_ind.
  - cbn [Pos.iter digits2_pos]. lia.
  - rewrite Pos.iter_succ. cbn [digits2_pos]. rewrite Pos2Z.inj_succ, IH. lia.
Qed.

Lemma shr_1_m (r : shr_record) :
  0 <= shr_m r -> shr_m (shr_1 r) = shr_m r / 2.
Proof.
  destruct r as [m rr ss]. cbn [shr_m]. intros Hm.
  rewrite <- Z.div2_div.
  destruct m as [|[p|p|]|p]; try reflexivity. lia.
Qed.

Lemma iter_shr_1_m (p : positive) (r : shr_record) :
  0 <= shr_m r ->
  shr_m (SpecFloat.iter_pos shr_1 p r) = shr_m r / 2 ^ Z.pos p.
Proof.
  revert r. induction p as [p IH|p IH|]; intros r Hr; cbn [SpecFloat.iter_pos].
  - assert (H1 : 0 <= shr_m (shr_1 r)) by (rewrite shr_1_m by assumption; apply Z.div_pos; lia).
    assert (H2 : 0 <= shr_m (SpecFloat.iter_pos shr_1 p (shr_1 r)))
      by (rewrite IH by assumption; apply Z.div_pos; lia).
    rewrite IH, IH, shr_1_m by assumption.
    rewrite !Z.div_div by lia. f_equal.
    replace (Z.pos p~1) with (1 + (Z.pos p + Z.pos p)) by lia.
    rewrite !Z.pow_add_r by lia. reflexivity.
  - assert (H2 : 0 <= shr_m (SpecFloat.iter_pos shr_1 p r))
      by (rewrite IH by assumption; apply Z.div_pos; lia).
    rewrite IH, IH by assumption.
    rewrite !Z.div_div by lia. f_equal.
    replace (Z.pos p~0) with (Z.pos p + Z.pos p) by lia.
    rewrite !Z.pow_add_r by lia. reflexivity.
  - rewrite shr_1_m by assumption. reflexivity.
Qed.

Lemma round_nearest_even_bounds (m : Z) (l : location) :
  m <= round_nearest_even m l <= m + 1.
Proof.
  unfold round_nearest_even. destruct l as [|[]]; try destruct (Z.even m); lia.
Qed.

Lemma Zdigits2_bounds (m : Z) :
  0 < m -> 2 ^ (Zdigits2 m - 1) <= m < 2 ^ Zdigits2 m.
Proof.
  destruct m as [|p|p]; try lia. intros _. apply digits2_pos_bounds.
Qed.

Lemma Zdigits2_pos (m : Z) : 0 < m -> 0 < Zdigits2 m.
Proof. destruct m; cbn; lia. Qed.

(** A rounded positive integer is not zero: the result compares with
    zero as its sign says. *)
Lemma binary_round_aux_nonzero (s : bool) (M : positive) (E : Z) :
  -1074 <= E ->
  0 <= fexp prec emax (Z.pos (digits2_pos M) + E) - E ->
  SFcompare (binary_round_aux prec emax s (Z.pos M) E loc_Exact) zero
  = Some (if s then Lt else Gt).
Proof.
  intros HE Hn. unfold binary_round_aux, shr_fexp. cbn [Zdigits2].
  set (d := Z.pos (digits2_pos M)) in *.
  pose proof (digits2_pos_bounds M) as HM. fold d in HM.
  unfold fexp, emin, prec, emax in *.
  set (n1 := (d + E - 53) `max` (3 - 1024 - 53) - E) in *.
  assert (Hfinal : forall (m : Z) (e : Z),
             0 < m ->
             SFcompare match m with
                       | 0 => S754_zero s
                       | Z.pos m0 => if e <=? 1024 - 53 then S754_finite s m0 e
                                     else S754_infinity s
                       | Z.neg _ => S754_nan
                       end zero = Some (if s then Lt else Gt)).
  { intros m e Hm. destruct m as [|m0|m0]; try lia.
    destruct (e <=? 1024 - 53); reflexivity. }
  destruct n1 as [|k|k] eqn:Hk; try lia; unfold shr at 1.
  - cbn [shr_record_of_loc shr_m loc_of_shr_record round_nearest_even Zdigits2].
    fold d. fold n1. rewrite Hk. cbn [shr shr_m].
    exact (Hfinal (Z.pos M) E ltac:(lia)).
  - set (r1 := SpecFloat.iter_pos shr_1 k (shr_record_of_loc (Z.pos M) loc_Exact)).
    assert (Hr1 : shr_m r1 = Z.pos M / 2 ^ Z.pos k)
      by (unfold r1; rewrite iter_shr_1_m; cbn; [ reflexivity | lia ]).
    assert (Hdk : d = 53 + Z.pos k) by lia.
    assert (Hpow : 2 ^ d = 2 ^ 53 * 2 ^ Z.pos k)
      by (rewrite Hdk, Z.pow_add_r by lia; reflexivity).
    assert (Hpow' : 2 ^ (d - 1) = 2 ^ 52 * 2 ^ Z.pos k)
      by (replace (d - 1) with (52 + Z.pos k) by lia; rewrite Z.pow_add_r by lia; reflexivity).
    assert (Hk2 : 0 < 2 ^ Z.pos k) by (apply Z.pow_pos_nonneg; lia).
    assert (Hm1 : 2 ^ 52 <= shr_m r1 < 2 ^ 53).
    { rewrite Hr1. split.
      - apply Z.div_le_lower_bound; lia.
      - apply Z.div_lt_upper_bound; lia. }
    pose proof (round_nearest_even_bounds (shr_m r1) (loc_of_shr_record r1)) as Hm2.
    set (m2 := round_nearest_even (shr_m r1) (loc_of_shr_record r1)) in *.
    assert (Hm2pos : 0 < m2) by lia.
    pose proof (Zdigits2_bounds m2 Hm2pos) as Hd2.
    pose proof (Zdigits2_pos m2 Hm2pos) as Hd2pos.
    assert (Hd2' : Zdigits2 m2 = 53 \/ Zdigits2 m2 = 54).
    { destruct Hd2 as [Hlo Hhi].
      assert (52 < Zdigits2 m2) by (apply (Z.pow_lt_mono_r_iff 2); lia).
      assert (Zdigits2 m2 - 1 < 54) by (apply (Z.pow_lt_mono_r_iff 2); try lia;
        change (2 ^ 54) with (2 * 2 ^ 53); lia).
      lia. }
    cbn [shr_record_of_loc].
    destruct Hd2' as [Hd2' | Hd2']; rewrite Hd2'.
    + replace ((53 + (E + Z.pos k) - 53) `max` (3 - 1024 - 53) - (E + Z.pos k)) with 0 by lia.
      cbn [shr shr_m]. apply Hfinal. lia.
    + replace ((54 + (E + Z.pos k) - 53) `max` (3 - 1024 - 53) - (E + Z.pos k)) with 1 by lia.
      cbn [shr SpecFloat.iter_pos]. rewrite shr_1_m by (cbn [shr_m]; lia).
      cbn [shr_m]. apply Hfinal.
      apply Z.div_str_pos. lia.
Qed.

Lemma binary_round_nonzero (s : bool) (q : positive) (e : Z) :
  -1074 <= e ->
  SFcompare (binary_round prec emax s q e) zero = Some (if s then Lt else Gt).
Proof.
  intros He. unfold binary_round, shl_align.
  set (f := fexp prec emax (Z.pos (digits2_pos q) + e)).
  assert (Hf : f = (Z.pos (digits2_pos q) + e - 53) `max` (-1074)) by reflexivity.
  destruct (f - e) as [|k|k] eqn:Hk.
  - apply binary_round_aux_nonzero; [ assumption | fold f; lia ].
  - apply binary_round_aux_nonzero; [ assumption | fold f; lia ].
  - apply binary_round_aux_nonzero; [ lia | ].
    rewrite iter_xO_digits.
    replace (Z.pos (digits2_pos q) + Z.pos k + f) with (Z.pos (digits2_pos q) + e) by lia.
    fold f. lia.
Qed.

Lemma binary_normalize_below_zero (z e : Z) :
  z < 0 -> -1074 <= e ->
  (binary_normalize prec emax z e false <? zero)%js = true.
Proof.
  intros Hz He. destruct z as [|q|q]; try lia.
  unfold ltb, SFltb. cbn [binary_normalize].
  now rewrite binary_round_nonzero.
Qed.

(** The shape of a finite binary64 number: a 53-digit mantissa, or the
    least exponent with at most 53 digits. *)
Lemma bounded_inv (m : positive) (e : Z) :
  bounded prec emax m e = true ->
  -1074 <= e
  /\ (Z.pos (digits2_pos m) = 53 \/ (e = -1074 /\ Z.pos (digits2_pos m) <= 53)).
Proof.
  unfold bounded, canonical_mantissa, fexp, emin, prec, emax.
  rewrite andb_true_iff, Z.eqb_eq. lia.
Qed.

Lemma shl_align_value (m : positive) (e e' : Z) :
  e' <= e ->
  Z.pos (fst (shl_align m e e')) = Z.pos m * 2 ^ (e - e').
Proof.
  intros H. unfold shl_align.
  destruct (e' - e) as [|k|k] eqn:Hk; try lia; cbn [fst].
  - replace (e - e') with 0 by lia. lia.
  - rewrite iter_xO_value. f_equal. f_equal. lia.
Qed.

(** On binary64 numbers the order agrees with the sign of the
    difference: if [y < x] then [y - x < 0]. *)
Lemma ltb_sub_negative (x y : number) :
  valid_binary prec emax x = true -> valid_binary prec emax y = true ->
  (y <? x)%js = true -> (y - x <? zero)%js = true.
Proof.
  destruct x as [sx|sx| |sx mx ex], y as [sy|sy| |sy my ey];
    intros Hx Hy;
    try (destruct sx, sy; cbv; congruence);
    try (destruct sx; cbv; congruence);
    try (destruct sy; cbv; congruence);
    try (cbv; congruence).
  cbn [valid_binary] in Hx, Hy.
  destruct (bounded_inv _ _ Hx) as (Hex & Hdx).
  destruct (bounded_inv _ _ Hy) as (Hey & Hdy).
  pose proof (digits2_pos_bounds mx) as Hmx.
  pose proof (digits2_pos_bounds my) as Hmy.
  intros Hlt. unfold sub, SFsub.
  apply binary_normalize_below_zero; [ | lia ].
  rewrite !shl_align_value by lia.
  unfold ltb, SFltb, SFcompare in Hlt.
  change (PosDef.Pos.compare_cont Eq my mx) with (Pos.compare my mx) in Hlt.
  assert (Hpx : 2 ^ Z.pos (digits2_pos mx) <= 2 ^ 53)
    by (apply Z.pow_le_mono_r; lia).
  assert (Hpy : 2 ^ Z.pos (digits2_pos my) <= 2 ^ 53)
    by (apply Z.pow_le_mono_r; lia).
  assert (Hax : 0 < 2 ^ (ex - ey `min` ex)) by (apply Z.pow_pos_nonneg; lia).
  assert (Hay : 0 < 2 ^ (ey - ey `min` ex)) by (apply Z.pow_pos_nonneg; lia).
  destruct (Z.compare_spec ey ex) as [Heq | Hlt' | Hgt'].
  - subst ey. replace (ex - ex `min` ex) with 0 in * by lia.
    destruct (Pos.compare_spec my mx) as [Hm | Hm | Hm];
      destruct sy, sx; cbn in Hlt |- *; try discriminate; lia.
  - destruct sy, sx; cbn [cond_Zopp]; try discriminate; [ nia | ].
    replace (ey - ey `min` ex) with 0 by lia.
    assert (Hk : 2 ^ 1 <= 2 ^ (ex - ey `min` ex)) by (apply Z.pow_le_mono_r; lia).
    assert (Hdx' : Z.pos (digits2_pos mx) = 53) by lia.
    rewrite Hdx' in Hmx. change (2 ^ (53 - 1)) with (2 ^ 52) in Hmx.
    change (2 ^ 1) with 2 in Hk. change (2 ^ 53) with (2 * 2 ^ 52) in *.
    nia.
  - destruct sy, sx; cbn [cond_Zopp]; try discriminate; [ | nia ].
    replace (ex - ey `min` ex) with 0 by lia.
    assert (Hk : 2 ^ 1 <= 2 ^ (ey - ey `min` ex)) by (apply Z.pow_le_mono_r; lia).
    assert (Hdy' : Z.pos (digits2_pos my) = 53) by lia.
    rewrite Hdy' in Hmy. change (2 ^ (53 - 1)) with (2 ^ 52) in Hmy.
    change (2 ^ 1) with 2 in Hk. change (2 ^ 53) with (2 * 2 ^ 52) in *.
    nia.
Qed.

Lemma Zdigits2_unique (m k : Z) :
  0 < m -> 2 ^ (k - 1) <= m < 2 ^ k -> Zdigits2 m = k.
Proof.
  intros Hm [Hlo Hhi].
  pose proof (Zdigits2_bounds m Hm) as [Hlo' Hhi'].
  pose proof (Zdigits2_pos m Hm) as Hd.
  assert (Hk : 0 < k).
  { destruct (Z_lt_le_dec 0 k) as [|Hk]; [ assumption | ].
    destruct (Z.eq_dec k 0) as [-> | Hk0]; [ cbn in Hhi; lia | ].
    rewrite Z.pow_neg_r in Hhi by lia. lia. }
  assert (k - 1 < Zdigits2 m) by (apply (Z.pow_lt_mono_r_iff 2); lia).
  assert (Zdigits2 m - 1 < k) by (apply (Z.pow_lt_mono_r_iff 2); lia).
  lia.
Qed.

(** The last step of rounding: packing a mantissa that fits its
    exponent. *)
Lemma pack_valid (s : bool) (m e : Z) :
  m = 0 \/ (0 < m /\ fexp prec emax (Zdigits2 m + e) = e) ->
  valid_binary prec emax
    match m with
    | 0 => S754_zero s
    | Z.pos m0 => if e <=? emax - prec then S754_finite s m0 e else S754_infinity s
    | Z.neg _ => S754_nan
    end = true.
Proof.
  intros [-> | [Hm Hf]]; [ reflexivity | ].
  destruct m as [|m0|m0]; try lia.
  destruct (e <=? emax - prec) eqn:He; [ | reflexivity ].
  cbn [valid_binary]. unfold bounded, canonical_mantissa.
  cbn [Zdigits2] in Hf. rewrite Hf, Z.eqb_refl, He. reflexivity.
Qed.

Lemma second_shift_valid (s : bool) (m2 f : Z) :
  -1074 <= f -> 0 <= m2 <= 2 ^ 53 -> (-1074 < f -> 2 ^ 52 <= m2) ->
  valid_binary prec emax
    (let '(mrs'', e'') := shr_fexp prec emax m2 f loc_Exact in
     match shr_m mrs'' with
     | 0 => S754_zero s
     | Z.pos m0 => if e'' <=? emax - prec then S754_finite s m0 e'' else S754_infinity s
     | Z.neg _ => S754_nan
     end) = true.
Proof.
  intros Hf Hm2 Hnormal. unfold shr_fexp.
  destruct (Z.eq_dec m2 0) as [-> | Hnz].
  { cbn [Zdigits2 shr_record_of_loc]. unfold fexp, emin, prec, emax.
    destruct ((0 + f - 53) `max` (3 - 1024 - 53) - f) as [|k|k] eqn:Hk; try lia;
      reflexivity. }
  assert (Hpos : 0 < m2) by lia.
  pose proof (Zdigits2_bounds m2 Hpos) as Hd2.
  pose proof (Zdigits2_pos m2 Hpos) as Hd2pos.
  assert (Hd54 : Zdigits2 m2 <= 54).
  { assert (Zdigits2 m2 - 1 < 54); [ | lia ].
    apply (Z.pow_lt_mono_r_iff 2); lia. }
  assert (Hd53 : -1074 < f -> 53 <= Zdigits2 m2).
  { intros H. specialize (Hnormal H).
    assert (52 < Zdigits2 m2); [ | lia ].
    apply (Z.pow_lt_mono_r_iff 2); lia. }
  unfold fexp, emin. change (3 - emax - prec) with (-1074).
  change (Zdigits2 m2 + f - prec) with (Zdigits2 m2 + f - 53).
  set (d2 := Zdigits2 m2) in *.
  destruct (Z.eq_dec d2 54) as [H54 | H54].
  - replace ((d2 + f - 53) `max` (-1074) - f) with 1 by lia.
    cbn [shr SpecFloat.iter_pos shr_record_of_loc].
    rewrite shr_1_m by (cbn [shr_m]; lia). cbn [shr_m].
    apply pack_valid. right.
    assert (Hm2' : 2 ^ 53 <= m2) by (rewrite H54 in Hd2; apply Hd2).
    assert (Hm3 : 2 ^ 52 <= m2 / 2 < 2 ^ 53).
    { split; [ apply Z.div_le_lower_bound | apply Z.div_lt_upper_bound ]; try lia;
        change (2 ^ 53) with (2 * 2 ^ 52) in *; lia. }
    split; [ lia | ].
    rewrite (Zdigits2_unique (m2 / 2) 53) by (try lia; exact Hm3).
    unfold fexp, emin, prec, emax. lia.
  - assert (Hn2 : (d2 + f - 53) `max` (-1074) - f = 0) by lia.
    rewrite Hn2. cbn [shr shr_record_of_loc shr_m].
    apply pack_valid. right. split; [ assumption | ].
    fold d2. unfold fexp, emin, prec, emax. lia.
Qed.

Lemma shr_record_of_loc_m (m : Z) (l : location) : shr_m (shr_record_of_loc m l) = m.
Proof. destruct l as [|[]]; reflexivity. Qed.

(** Rounding a non-negative integer whose exponent is not above the
    one of its format gives a binary64 number. *)
Lemma binary_round_aux_valid (s : bool) (M E : Z) (l : location) :
  0 <= M ->
  0 <= fexp prec emax (Zdigits2 M + E) - E ->
  valid_binary prec emax (binary_round_aux prec emax s M E l) = true.
Proof.
  intros HM Hn. unfold binary_round_aux. unfold shr_fexp at 1.
  set (d := Zdigits2 M) in *.
  assert (Hf : fexp prec emax (d + E) = (d + E - 53) `max` (-1074)) by reflexivity.
  rewrite Hf in *.
  assert (Hbounds : 0 < M -> 0 < d /\ 2 ^ (d - 1) <= M < 2 ^ d).
  { intros H. split; [ now apply Zdigits2_pos | now apply Zdigits2_bounds ]. }
  assert (Hd0 : M = 0 -> d = 0) by (intros ->; reflexivity).
  destruct ((d + E - 53) `max` (-1074) - E) as [|k|k] eqn:Hk; try lia;
    unfold shr at 1; cbv beta iota zeta.
  - apply second_shift_valid; try rewrite shr_record_of_loc_m.
    + lia.
    + pose proof (round_nearest_even_bounds M (loc_of_shr_record (shr_record_of_loc M l))).
      destruct (Z.eq_dec M 0) as [-> | Hnz]; [ change (2 ^ 53) with 9007199254740992; lia | ].
      destruct (Hbounds ltac:(lia)) as (Hdpos & Hlo & Hhi).
      assert (2 ^ d <= 2 ^ 53) by (apply Z.pow_le_mono_r; lia). lia.
    + intros Hnormal.
      pose proof (round_nearest_even_bounds M (loc_of_shr_record (shr_record_of_loc M l))).
      destruct (Z.eq_dec M 0) as [HM0 | Hnz]; [ specialize (Hd0 HM0); lia | ].
      destruct (Hbounds ltac:(lia)) as (Hdpos & Hlo & Hhi).
      replace (d - 1) with 52 in Hlo by lia. lia.
  - set (r1 := SpecFloat.iter_pos shr_1 k (shr_record_of_loc M l)).
    assert (Hr1 : shr_m r1 = M / 2 ^ Z.pos k)
      by (unfold r1; rewrite iter_shr_1_m; rewrite shr_record_of_loc_m; [ reflexivity | lia ]).
    assert (Hk2 : 0 < 2 ^ Z.pos k) by (apply Z.pow_pos_nonneg; lia).
    pose proof (round_nearest_even_bounds (shr_m r1) (loc_of_shr_record r1)) as Hm2.
    apply second_shift_valid.
    + lia.
    + assert (0 <= shr_m r1) by (rewrite Hr1; apply Z.div_pos; lia).
      assert (shr_m r1 < 2 ^ 53); [ | lia ].
      rewrite Hr1. apply Z.div_lt_upper_bound; [ lia | ].
      destruct (Z.eq_dec M 0) as [-> | Hnz]; [ lia | ].
      destruct (Hbounds ltac:(lia)) as (Hdpos & Hlo & Hhi).
      assert (2 ^ d <= 2 ^ (Z.pos k + 53)) by (apply Z.pow_le_mono_r; lia).
      rewrite Z.pow_add_r in * by lia. lia.
    + intros Hnormal.
      assert (2 ^ 52 <= shr_m r1); [ | lia ].
      rewrite Hr1.
      destruct (Z.eq_dec M 0) as [HM0 | Hnz]; [ specialize (Hd0 HM0); lia | ].
      destruct (Hbounds ltac:(lia)) as (Hdpos & Hlo & Hhi).
      apply Z.div_le_lower_bound; [ lia | ].
      replace (d - 1) with (Z.pos k + 52) in Hlo by lia.
      rewrite Z.pow_add_r in Hlo by lia. lia.
Qed.

(** The quotient that division hands to the rounding has enough
    digits for its exponent. *)
Lemma SFdiv_core_binary_spec (mx my : positive) (ex ey : Z) :
  let '(q, e', _) := SFdiv_core_binary prec emax (Z.pos mx) ex (Z.pos my) ey in
  0 <= q /\ 0 <= fexp prec emax (Zdigits2 q + e') - e'.
Proof.
  unfold SFdiv_core_binary. cbn [Zdigits2].
  pose proof (digits2_pos_bounds mx) as Hmx.
  pose proof (digits2_pos_bounds my) as Hmy.
  set (d1 := Z.pos (digits2_pos mx)) in *. set (d2 := Z.pos (digits2_pos my)) in *.
  assert (Hfexp : forall a, fexp prec emax a = (a - 53) `max` (-1074)) by reflexivity.
  rewrite Hfexp.
  set (e' := ((d1 + ex - (d2 + ey) - 53) `max` (-1074)) `min` (ex - ey)).
  set (s := ex - ey - e').
  assert (Hs : 0 <= s) by (unfold s, e'; lia).
  set (m' := match s with Z.pos _ => Z.shiftl (Z.pos mx) s | 0 => Z.pos mx | Z.neg _ => 0 end).
  assert (Hm' : m' = Z.pos mx * 2 ^ s).
  { unfold m'. destruct s as [|p|p] eqn:Hsp; try lia.
    now rewrite Z.shiftl_mul_pow2 by lia. }
  assert (Hq : fst (Z.div_eucl m' (Z.pos my)) = m' / Z.pos my) by reflexivity.
  destruct (Z.div_eucl m' (Z.pos my)) as [q r]. cbn [fst] in Hq. subst q.
  assert (Hs2 : 0 < 2 ^ s) by (apply Z.pow_pos_nonneg; lia).
  assert (Hq0 : 0 <= m' / Z.pos my) by (apply Z.div_pos; nia).
  split; [ assumption | ]. rewrite Hfexp.
  assert (Hdig : d1 + s - d2 <= Zdigits2 (m' / Z.pos my)).
  { destruct (Z_le_gt_dec (d1 + s - d2) 0) as [Hle | Hgt].
    - destruct (m' / Z.pos my) as [|q|q]; cbn [Zdigits2]; lia.
    - assert (Hlow : 2 ^ (d1 + s - d2 - 1) <= m' / Z.pos my).
      { apply Z.div_le_lower_bound; [ lia | ].
        assert (Hsplit : 2 ^ (d1 - 1) * 2 ^ s = 2 ^ d2 * 2 ^ (d1 + s - d2 - 1)).
        { rewrite <- !Z.pow_add_r by lia. f_equal. lia. }
        assert (0 < 2 ^ (d1 + s - d2 - 1)) by (apply Z.pow_pos_nonneg; lia).
        nia. }
      assert (Hqpos : 0 < m' / Z.pos my).
      { assert (0 < 2 ^ (d1 + s - d2 - 1)) by (apply Z.pow_pos_nonneg; lia). lia. }
      pose proof (Zdigits2_bounds _ Hqpos) as [_ Hhi].
      pose proof (Zdigits2_pos _ Hqpos).
      assert (d1 + s - d2 - 1 < Zdigits2 (m' / Z.pos my)); [ | lia ].
      apply (Z.pow_lt_mono_r_iff 2); lia. }
  unfold s in Hdig. unfold e' in *. lia.
Qed.

(** Every quotient is a binary64 number. *)
Lemma div_valid (x y : number) : valid_binary prec emax (x / y)%js = true.
Proof.
  destruct x as [sx|sx| |sx mx ex], y as [sy|sy| |sy my ey]; try reflexivity.
  unfold div, SFdiv.
  pose proof (SFdiv_core_binary_spec mx my ex ey) as H.
  destruct (SFdiv_core_binary prec emax (Z.pos mx) ex (Z.pos my) ey) as [[q e'] l].
  destruct H as [Hq Hn]. now apply binary_round_aux_valid.
Qed.

Lemma round_div_valid (x y : number) (precision : Z) :
  valid_binary prec emax (round (x / y)%js precision) = true.
Proof.
  unfold round. destruct (precision =? PRECISION_MAX); apply div_valid.
Qed.

(** ** Quadratic inversion *)

Lemma discriminant_of_constant (p : Quadratic.QuadraticPolynomial) (y : number) :
  (Quadratic.c2 p === zero)%js = true -> (Quadratic.c1 p === zero)%js = true ->
  Quadratic.discriminant p y = NaN \/ exists s, Quadratic.discriminant p y = S754_zero s.
Proof.
  intros H2 H1. apply eqb_zero_inv in H2 as [s2 H2]. apply eqb_zero_inv in H1 as [s1 H1].
  unfold Quadratic.discriminant. rewrite H1, H2.
  destruct (Quadratic.c0 p - y)%js as [s|s| |s m e], s1, s2; try destruct s;
    cbv; eauto.
Qed.

(** C1 (defect of the code).  The claim: for a quadratic with [c2 = 0],
    [solveInverse(p, y)] is linear inversion, the unique root
    [(y - c0) / c1] when [c1] is non-zero and no root when [c1 = 0], and
    it never yields NaN or an infinity.  [solveInverse] has no branch on
    [c2].  With [c1 = c2 = 0] it never returns the empty sequence; for
    [p = make(0, 0, 0)] and [y = 0] it returns the single entry NaN
    where linear inversion gives no root, and for [p = make(0, 1, 0)]
    it returns the two entries NaN and -Infinity where linear inversion
    gives the root 0. *)
Theorem solveInverse_ignores_zero_leading_coefficient :
  (forall p y,
     (Quadratic.c2 p === zero)%js = true -> (Quadratic.c1 p === zero)%js = true ->
     Quadratic.solveInverse p y <> [])
  /\ Quadratic.c2 (Quadratic.make #0 #1 #0 PRECISION) = zero
  /\ Quadratic.solveInverse (Quadratic.make #0 #1 #0 PRECISION) #0
     = [NaN; (- Infinity)%js]
  /\ Linear.solveInverse (Linear.make #0 #1 PRECISION) #0 = Some zero
  /\ Quadratic.solveInverse (Quadratic.make #0 #0 #0 PRECISION) #0 = [NaN]
  /\ Linear.solveInverse (Linear.make #0 #0 PRECISION) #0 = None.
Proof.
  split; [ | vm_compute; repeat split ].
  intros p y H2 H1. unfold Quadratic.solveInverse.
  destruct (discriminant_of_constant p y H2 H1) as [-> | [s ->]].
  - cbv zeta. change (NaN <? zero)%js with false. change (NaN === zero)%js with false.
    cbv iota. rewrite toSorted_pair. now destruct (_ <? _)%js.
  - cbv zeta. change (S754_zero s <? zero)%js with false.
    change (S754_zero s === zero)%js with true. cbv iota. discriminate.
Qed.

(** The constant polynomial 3 never takes the value 5, yet its inverse
    is not empty. *)
Lemma solveInverse_ignores_zero_leading_coefficient_witness :
  Quadratic.solveInverse (Quadratic.make #3 #0 #0 PRECISION) #5 <> []
  /\ Quadratic.solveInverse (Quadratic.make #3 #0 #0 PRECISION) #5 = [NaN].
Proof.
  split; [ | reflexivity ].
  exact (proj1 solveInverse_ignores_zero_leading_coefficient
           (Quadratic.make #3 #0 #0 PRECISION) (ofZ 5) eq_refl eq_refl).
Defined.

Lemma solveInverse_negative_discriminant (p : Quadratic.QuadraticPolynomial) (y : number) :
  (Quadratic.discriminant p y <? zero)%js = true ->
  Quadratic.solveInverse p y = [].
Proof. intros H. unfold Quadratic.solveInverse. now rewrite H. Qed.

Lemma solveInverse_zero_discriminant (p : Quadratic.QuadraticPolynomial) (y : number) :
  (Quadratic.discriminant p y === zero)%js = true ->
  Quadratic.solveInverse p y =
  [round (- Quadratic.c1 p / (#2 * Quadratic.c2 p))%js (Quadratic.precision p)].
Proof.
  intros H. unfold Quadratic.solveInverse.
  now rewrite (eqb_not_ltb _ _ H), H.
Qed.

Lemma solveInverse_positive_discriminant (p : Quadratic.QuadraticPolynomial) (y : number) :
  (Quadratic.discriminant p y >? zero)%js = true ->
  Quadratic.solveInverse p y =
  toSorted (fun a b => a - b)%js
    [ round ((- Quadratic.c1 p + sqrt (Quadratic.discriminant p y))
             / (#2 * Quadratic.c2 p))%js (Quadratic.precision p);
      round ((- Quadratic.c1 p - sqrt (Quadratic.discriminant p y))
             / (#2 * Quadratic.c2 p))%js (Quadratic.precision p) ].
Proof.
  intros H. unfold gtb in H. unfold Quadratic.solveInverse.
  rewrite (ltb_asym _ _ H).
  rewrite eqb_sym, (ltb_not_eqb _ _ H). reflexivity.
Qed.

(** The comparator [a - b] orders two quotients as [<] does: after the
    sort the second is not less than the first. *)
Lemma toSorted_pair_ascending (x y : number) :
  valid_binary prec emax x = true -> valid_binary prec emax y = true ->
  exists a b,
    toSorted (fun a b => a - b)%js [x; y] = [a; b]
    /\ ((a = x /\ b = y) \/ (a = y /\ b = x))
    /\ (b - a <? zero)%js = false
    /\ (b <? a)%js = false.
Proof.
  intros Hx Hy. rewrite toSorted_pair.
  destruct (y - x <? zero)%js eqn:E.
  - exists y, x. split; [ reflexivity | split; [ now right | ] ].
    pose proof (sub_antisym x y E) as E'. split; [ exact E' | ].
    destruct (x <? y)%js eqn:Hlt; [ | reflexivity ].
    rewrite (ltb_sub_negative y x Hy Hx Hlt) in E'. discriminate.
  - exists x, y. split; [ reflexivity | split; [ now left | ] ].
    split; [ exact E | ].
    destruct (y <? x)%js eqn:Hlt; [ | reflexivity ].
    rewrite (ltb_sub_negative x y Hx Hy Hlt) in E. discriminate.
Qed.

(** C2 (as amended).  For a quadratic with [c2] non-zero and the
    discriminant [D = c1^2 - 4 c2 (c0 - y)]: [solveInverse(p, y)] is
    empty when [D < 0]; it is the single root [-c1 / (2 c2)], rounded to
    the precision, when [D = 0]; and when [D > 0] it holds exactly two
    entries, the two rounded roots, in ascending order: the second is
    not less than the first.  The two entries may be equal. *)
Theorem solveInverse_by_discriminant (p : Quadratic.QuadraticPolynomial) (y : number) :
  (Quadratic.c2 p === zero)%js = false ->
  let D := Quadratic.discriminant p y in
  let r1 := round ((- Quadratic.c1 p + sqrt D) / (#2 * Quadratic.c2 p))%js
                  (Quadratic.precision p) in
  let r2 := round ((- Quadratic.c1 p - sqrt D) / (#2 * Quadratic.c2 p))%js
                  (Quadratic.precision p) in
  ((D <? zero)%js = true -> Quadratic.solveInverse p y = [])
  /\ ((D === zero)%js = true ->
      Quadratic.solveInverse p y =
      [round (- Quadratic.c1 p / (#2 * Quadratic.c2 p))%js (Quadratic.precision p)])
  /\ ((D >? zero)%js = true ->
      exists a b,
        Quadratic.solveInverse p y = [a; b]
        /\ ((a = r1 /\ b = r2) \/ (a = r2 /\ b = r1))
        /\ (b - a <? zero)%js = false
        /\ (b <? a)%js = false).
Proof.
  intros _ D r1 r2. split; [ | split ].
  - apply solveInverse_negative_discriminant.
  - apply solveInverse_zero_discriminant.
  - intros H. rewrite (solveInverse_positive_discriminant p y H).
    fold D r1 r2. apply toSorted_pair_ascending; apply round_div_valid.
Qed.

(** The three test cases of the repository for [solveInverse], through
    the theorem: [make(0, 1, 2)] at 0, at -0.125 and at -0.5. *)
Lemma solveInverse_by_discriminant_witness :
  let p := Quadratic.make #0 #1 #2 PRECISION in
  (Quadratic.c2 p === zero)%js = false
  /\ Quadratic.solveInverse p (- (#1 / #2))%js = []
  /\ Quadratic.solveInverse p (- (#1 / #8))%js = [(- (#1 / #4))%js]
  /\ exists a b, Quadratic.solveInverse p #0 = [a; b] /\ (b <? a)%js = false.
Proof.
  intros p. split; [ reflexivity | ].
  split; [ | split ].
  - exact (proj1 (solveInverse_by_discriminant p (- (#1 / #2))%js eq_refl) eq_refl).
  - exact (proj1 (proj2 (solveInverse_by_discriminant p (- (#1 / #8))%js eq_refl)) eq_refl).
  - destruct (proj2 (proj2 (solveInverse_by_discriminant p #0 eq_refl)) eq_refl)
      as (a & b & Hab & _ & _ & Hord).
    exists a, b. split; assumption.
Defined.

(** C2 (counterexample to the claim as stated).  At precision 0 the
    polynomial [x^2 - 2x] takes the value -15/16 at 0.75 and at 1.25:
    the discriminant is positive and both roots round to 1, so the two
    entries returned are not in strictly ascending order. *)
Lemma solveInverse_roots_not_strictly_ascending :
  let p := Quadratic.make #0 (- #2)%js #1 0 in
  let y := (- (#15 / #16))%js in
  (Quadratic.c2 p === zero)%js = false
  /\ (Quadratic.discriminant p y >? zero)%js = true
  /\ Quadratic.solveInverse p y = [ #1; #1 ]%js
  /\ ~ (exists a b, Quadratic.solveInverse p y = [a; b] /\ (a <? b)%js = true).
Proof.
  intros p y. split; [ reflexivity | ]. split; [ reflexivity | ].
  assert (E : Quadratic.solveInverse p y = [ #1; #1 ]%js) by (vm_compute; reflexivity).
  split; [ exact E | ].
  intros (a & b & Hab & Hlt). rewrite E in Hab.
  injection Hab as <- <-. vm_compute in Hlt. discriminate.
Qed.

(** ** Extreme and monotonicity of a quadratic *)

(** *** Magnitudes through the operations *)

Lemma normalAtLeast_magnitude (k : Z) (x : number) :
  normalAtLeast k x -> magnitudeAtLeast k x.
Proof. destruct x as [s|s| |s m e]; cbn; try tauto. lia. Qed.

Lemma magnitudeAtLeast_nonzero (k : Z) (x : number) :
  magnitudeAtLeast k x -> (x === zero)%js = false.
Proof. destruct x as [s|[]| |[] m e]; cbn; tauto || reflexivity. Qed.

Lemma pack_normalAtLeast (s : bool) (m e k : Z) :
  2 ^ 52 <= m < 2 ^ 53 -> k <= 53 + e ->
  normalAtLeast k
    match m with
    | 0 => S754_zero s
    | Z.pos m0 => if e <=? emax - prec then S754_finite s m0 e else S754_infinity s
    | Z.neg _ => S754_nan
    end.
Proof.
  intros Hm Hk. destruct m as [|m0|m0]; try lia.
  destruct (e <=? emax - prec); [ | exact I ].
  cbn. split; [ | assumption ].
  change (Z.pos (digits2_pos m0)) with (Zdigits2 (Z.pos m0)).
  apply Zdigits2_unique; lia.
Qed.

Lemma second_shift_normalAtLeast (s : bool) (m2 f k : Z) :
  -1074 <= f -> 2 ^ 52 <= m2 <= 2 ^ 53 -> k <= 53 + f ->
  normalAtLeast k
    (let '(mrs'', e'') := shr_fexp prec emax m2 f loc_Exact in
     match shr_m mrs'' with
     | 0 => S754_zero s
     | Z.pos m0 => if e'' <=? emax - prec then S754_finite s m0 e'' else S754_infinity s
     | Z.neg _ => S754_nan
     end).
Proof.
  intros Hf Hm2 Hk. unfold shr_fexp.
  assert (Hpos : 0 < m2) by lia.
  pose proof (Zdigits2_bounds m2 Hpos) as Hd2.
  unfold fexp, emin. change (3 - emax - prec) with (-1074).
  change (Zdigits2 m2 + f - prec) with (Zdigits2 m2 + f - 53).
  destruct (Z.eq_dec m2 (2 ^ 53)) as [-> | Hne].
  - change (Zdigits2 (2 ^ 53)) with 54.
    replace ((54 + f - 53) `max` (-1074) - f) with 1 by lia.
    cbn [shr SpecFloat.iter_pos shr_record_of_loc].
    rewrite shr_1_m by (cbn [shr_m]; lia). cbn [shr_m].
    change (2 ^ 53 / 2) with (2 ^ 52).
    apply pack_normalAtLeast; lia.
  - assert (Hd : Zdigits2 m2 = 53) by (apply Zdigits2_unique; lia).
    rewrite Hd. replace ((53 + f - 53) `max` (-1074) - f) with 0 by lia.
    cbn [shr shr_record_of_loc shr_m].
    apply pack_normalAtLeast; lia.
Qed.

(** Rounding a positive integer of at least 53 digits, not below the
    normal range, gives an infinity or a normal number that is not
    smaller in magnitude. *)
Lemma binary_round_aux_normalAtLeast (s : bool) (M E : Z) (l : location) (k : Z) :
  0 < M -> 53 <= Zdigits2 M -> -1021 <= Zdigits2 M + E -> k <= Zdigits2 M + E ->
  normalAtLeast k (binary_round_aux prec emax s M E l).
Proof.
  intros HM Hd53 Hnormal Hk. unfold binary_round_aux. unfold shr_fexp at 1.
  set (d := Zdigits2 M) in *.
  assert (Hf : fexp prec emax (d + E) = (d + E - 53) `max` (-1074)) by reflexivity.
  rewrite Hf.
  pose proof (Zdigits2_bounds M HM) as [Hlo Hhi]. fold d in Hlo, Hhi.
  replace ((d + E - 53) `max` (-1074) - E) with (d - 53) by lia.
  destruct (d - 53) as [|n|n] eqn:Hn; try lia; unfold shr at 1; cbv beta iota zeta.
  - rewrite shr_record_of_loc_m.
    pose proof (round_nearest_even_bounds M (loc_of_shr_record (shr_record_of_loc M l))).
    replace (d - 1) with 52 in Hlo by lia. replace d with 53 in Hhi by lia.
    apply second_shift_normalAtLeast; lia.
  - set (r1 := SpecFloat.iter_pos shr_1 n (shr_record_of_loc M l)).
    assert (Hr1 : shr_m r1 = M / 2 ^ Z.pos n)
      by (unfold r1; rewrite iter_shr_1_m; rewrite shr_record_of_loc_m; [ reflexivity | lia ]).
    assert (Hn2 : 0 < 2 ^ Z.pos n) by (apply Z.pow_pos_nonneg; lia).
    pose proof (round_nearest_even_bounds (shr_m r1) (loc_of_shr_record r1)) as Hm2.
    assert (Hm1 : 2 ^ 52 <= shr_m r1 < 2 ^ 53).
    { rewrite Hr1. split.
      - apply Z.div_le_lower_bound; [ lia | ].
        replace (d - 1) with (Z.pos n + 52) in Hlo by lia.
        rewrite Z.pow_add_r in Hlo by lia. lia.
      - apply Z.div_lt_upper_bound; [ lia | ].
        replace d with (Z.pos n + 53) in Hhi by lia.
        rewrite Z.pow_add_r in Hhi by lia. lia. }
    apply second_shift_normalAtLeast; lia.
Qed.

Lemma Zdigits2_lower (m k : Z) : 0 < m -> 2 ^ k <= m -> k < Zdigits2 m.
Proof.
  intros Hm Hk. pose proof (Zdigits2_bounds m Hm) as [_ Hhi].
  pose proof (Zdigits2_pos m Hm).
  destruct (Z_lt_le_dec k 0); [ lia | ].
  apply (Z.pow_lt_mono_r_iff 2); lia.
Qed.

(** The quotient of a number of magnitude at least [a] by a finite
    number of magnitude [b]. *)
Lemma div_normalAtLeast (x : number) (sy : bool) (my : positive) (ey : Z) (a k : Z) :
  magnitudeAtLeast a x ->
  k <= a - (Z.pos (digits2_pos my) + ey) -> -1021 <= k ->
  normalAtLeast k (x / S754_finite sy my ey)%js.
Proof.
  destruct x as [sx|sx| |sx mx ex]; cbn [magnitudeAtLeast]; try tauto.
  intros Ha Hk Hnormal. unfold div, SFdiv, SFdiv_core_binary. cbn [Zdigits2].
  pose proof (digits2_pos_bounds mx) as Hmx.
  pose proof (digits2_pos_bounds my) as Hmy.
  set (d1 := Z.pos (digits2_pos mx)) in *. set (d2 := Z.pos (digits2_pos my)) in *.
  assert (Hfexp : forall z, fexp prec emax z = (z - 53) `max` (-1074)) by reflexivity.
  rewrite Hfexp.
  set (e' := ((d1 + ex - (d2 + ey) - 53) `max` (-1074)) `min` (ex - ey)).
  set (s := ex - ey - e').
  assert (Hs : 53 - d1 + d2 <= s) by (unfold s, e'; lia).
  assert (Hs0 : 0 <= s) by (unfold s, e'; lia).
  set (m' := match s with Z.pos _ => Z.shiftl (Z.pos mx) s | 0 => Z.pos mx | Z.neg _ => 0 end).
  assert (Hm' : m' = Z.pos mx * 2 ^ s).
  { unfold m'. destruct s as [|p|p] eqn:Hsp; try lia.
    now rewrite Z.shiftl_mul_pow2 by lia. }
  assert (Hq : fst (Z.div_eucl m' (Z.pos my)) = m' / Z.pos my) by reflexivity.
  destruct (Z.div_eucl m' (Z.pos my)) as [q r]. cbn [fst] in Hq. subst q.
  assert (Hs2 : 0 < 2 ^ s) by (apply Z.pow_pos_nonneg; lia).
  assert (Hlow : 2 ^ (d1 + s - d2 - 1) <= m' / Z.pos my).
  { apply Z.div_le_lower_bound; [ lia | ].
    assert (Hsplit : 2 ^ (d1 - 1) * 2 ^ s = 2 ^ d2 * 2 ^ (d1 + s - d2 - 1)).
    { rewrite <- !Z.pow_add_r by lia. f_equal. lia. }
    assert (0 < 2 ^ (d1 + s - d2 - 1)) by (apply Z.pow_pos_nonneg; lia).
    nia. }
  assert (Hqpos : 0 < m' / Z.pos my).
  { assert (0 < 2 ^ (d1 + s - d2 - 1)) by (apply Z.pow_pos_nonneg; lia). lia. }
  pose proof (Zdigits2_lower _ _ Hqpos Hlow) as Hdig.
  apply binary_round_aux_normalAtLeast; unfold s, e' in *; lia.
Qed.

Lemma digits2_pos_mul (mx my : positive) :
  Z.pos (digits2_pos mx) + Z.pos (digits2_pos my) - 1
  <= Z.pos (digits2_pos (mx * my)).
Proof.
  pose proof (digits2_pos_bounds mx) as [Hx _].
  pose proof (digits2_pos_bounds my) as [Hy _].
  set (dx := Z.pos (digits2_pos mx)) in *. set (dy := Z.pos (digits2_pos my)) in *.
  change (Z.pos (digits2_pos (mx * my))) with (Zdigits2 (Z.pos (mx * my))).
  assert (dx + dy - 2 < Zdigits2 (Z.pos (mx * my))); [ | lia ].
  apply Zdigits2_lower; [ lia | ].
  replace (dx + dy - 2) with ((dx - 1) + (dy - 1)) by lia.
  rewrite Z.pow_add_r by lia. rewrite Pos2Z.inj_mul.
  assert (0 < 2 ^ (dx - 1)) by (apply Z.pow_pos_nonneg; lia).
  assert (0 < 2 ^ (dy - 1)) by (apply Z.pow_pos_nonneg; lia).
  nia.
Qed.

(** The product of a normal number of magnitude at least [a] and a
    finite number of magnitude [b]. *)
Lemma mul_normalAtLeast (x : number) (sy : bool) (my : positive) (ey : Z) (a k : Z) :
  normalAtLeast a x ->
  k <= a + (Z.pos (digits2_pos my) + ey) - 1 -> -1021 <= k ->
  normalAtLeast k (x * S754_finite sy my ey)%js.
Proof.
  destruct x as [sx|sx| |sx mx ex]; cbn [normalAtLeast]; try tauto.
  intros [Hd Ha] Hk Hnormal. unfold mul, SFmul.
  pose proof (digits2_pos_mul mx my) as Hmul.
  pose proof (Pos2Z.is_pos (digits2_pos my)).
  apply binary_round_aux_normalAtLeast; cbn [Zdigits2]; lia.
Qed.

(** A rounded positive integer. *)
Lemma binary_round_normalAtLeast (s : bool) (q : positive) (e k : Z) :
  -1021 <= Z.pos (digits2_pos q) + e -> k <= Z.pos (digits2_pos q) + e ->
  normalAtLeast k (binary_round prec emax s q e).
Proof.
  intros Hnormal Hk. unfold binary_round, shl_align.
  set (f := fexp prec emax (Z.pos (digits2_pos q) + e)).
  assert (Hf : f = Z.pos (digits2_pos q) + e - 53) by (unfold f, fexp, emin, prec, emax; lia).
  destruct (f - e) as [|n|n] eqn:Hn.
  - apply binary_round_aux_normalAtLeast; cbn [Zdigits2]; lia.
  - apply binary_round_aux_normalAtLeast; cbn [Zdigits2]; lia.
  - apply binary_round_aux_normalAtLeast; cbn [Zdigits2]; rewrite ?iter_xO_digits; lia.
Qed.

(** The nearest integer of a number is a zero, NaN, or of magnitude at
    least one. *)
Lemma roundHalfAway_magnitude (x : number) :
  match roundHalfAway x with
  | S754_zero _ | S754_nan => True
  | y => magnitudeAtLeast 1 y
  end.
Proof.
  destruct x as [s|s| |s m e]; cbn [roundHalfAway]; try exact I.
  destruct (0 <=? e) eqn:He.
  - apply Z.leb_le in He. cbn. pose proof (Pos2Z.is_pos (digits2_pos m)). lia.
  - apply Z.leb_gt in He.
    set (d := 2 ^ (- e)).
    assert (Hd : 0 < d) by (apply Z.pow_pos_nonneg; lia).
    assert (Hq : 0 <= Z.pos m / d) by (apply Z.div_pos; lia).
    set (n := if d <=? 2 * (Z.pos m mod d) then Z.pos m / d + 1 else Z.pos m / d).
    assert (Hn : 0 <= n) by (unfold n; destruct (d <=? _); lia).
    destruct n as [|n0|n0]; try lia.
    + now destruct s.
    + assert (H : normalAtLeast 1 (binary_normalize prec emax (cond_Zopp s (Z.pos n0)) 0 s)).
      { pose proof (Pos2Z.is_pos (digits2_pos n0)).
        destruct s; cbn [cond_Zopp Z.opp binary_normalize];
          apply binary_round_normalAtLeast; lia. }
      apply normalAtLeast_magnitude in H.
      destruct (binary_normalize prec emax (cond_Zopp s (Z.pos n0)) 0 s); cbn in *; tauto.
Qed.

(** The nearest integer of a normal number of magnitude at least one. *)
Lemma roundHalfAway_normalAtLeast (x : number) :
  normalAtLeast 1 x -> normalAtLeast 1 (roundHalfAway x).
Proof.
  destruct x as [s|s| |s m e]; cbn [normalAtLeast roundHalfAway]; try tauto.
  intros [Hd He]. destruct (0 <=? e) eqn:He0; [ cbn; tauto | ].
  apply Z.leb_gt in He0.
  set (d := 2 ^ (- e)).
  assert (Hd0 : 0 < d) by (apply Z.pow_pos_nonneg; lia).
  pose proof (digits2_pos_bounds m) as [Hlo _]. rewrite Hd in Hlo.
  assert (Hle : d <= 2 ^ 52) by (apply Z.pow_le_mono_r; lia).
  assert (Hq : 1 <= Z.pos m / d) by (apply Z.div_le_lower_bound; lia).
  set (n := if d <=? 2 * (Z.pos m mod d) then Z.pos m / d + 1 else Z.pos m / d).
  assert (Hn : 1 <= n) by (unfold n; destruct (d <=? _); lia).
  destruct n as [|n0|n0]; try lia.
  pose proof (Pos2Z.is_pos (digits2_pos n0)).
  destruct s; cbn [cond_Zopp Z.opp binary_normalize];
    apply binary_round_normalAtLeast; lia.
Qed.

(** The scale of a precision is a normal number between 1 and [10 ^ 15]. *)
Lemma pow10_shape (precision : Z) :
  validPrecision precision ->
  exists m e, pow10 precision = S754_finite false m e
              /\ Z.pos (digits2_pos m) = 53 /\ 1 <= 53 + e <= 50.
Proof.
  unfold validPrecision. intros H.
  assert (E : precision = 0 \/ precision = 1 \/ precision = 2 \/ precision = 3
              \/ precision = 4 \/ precision = 5 \/ precision = 6 \/ precision = 7
              \/ precision = 8 \/ precision = 9 \/ precision = 10 \/ precision = 11
              \/ precision = 12 \/ precision = 13 \/ precision = 14 \/ precision = 15)
    by lia.
  repeat (destruct E as [-> | E]); try subst precision;
    do 2 eexists; (split; [ vm_compute; reflexivity | ]); cbn; lia.
Qed.

(** A non-zero coefficient that the constructor has stored keeps a
    non-zero double after rounding: with [c = round(c2, precision)]
    non-zero, [round(c * 2, precision)] is non-zero. *)
Lemma stored_slope_nonzero (c2 : number) (precision : Z) :
  validPrecision precision -> valid_binary prec emax c2 = true ->
  (round c2 precision === zero)%js = false ->
  (round (round c2 precision * #2) precision === zero)%js = false.
Proof.
  intros Hp Hv. unfold round.
  destruct (precision =? PRECISION_MAX) eqn:H12; [ now apply mul_two_nonzero | ].
  destruct (pow10_shape precision Hp) as (ms & es & -> & Hd & He).
  pose proof (roundHalfAway_magnitude (c2 * S754_finite false ms es)%js) as HN.
  destruct (roundHalfAway (c2 * S754_finite false ms es)%js) as [sn|sn| |sn mn en] eqn:EN.
  - destruct sn; cbn; discriminate.
  - intros _. destruct sn; reflexivity.
  - intros _. reflexivity.
  - intros _.
    assert (Hc : normalAtLeast (-52 - es)
                   (S754_finite sn mn en / S754_finite false ms es)%js)
      by (apply (div_normalAtLeast _ _ _ _ 1); [ exact HN | lia | lia ]).
    set (c := (S754_finite sn mn en / S754_finite false ms es)%js) in *.
    assert (H2 : normalAtLeast (-51 - es) (c * #2)%js).
    { change (#2)%js with (S754_finite false 4503599627370496 (-51)).
      apply (mul_normalAtLeast _ _ _ _ (-52 - es)); [ exact Hc | cbn; lia | lia ]. }
    assert (HY : normalAtLeast 1 (c * #2 * S754_finite false ms es)%js)
      by (apply (mul_normalAtLeast _ _ _ _ (-51 - es)); [ exact H2 | lia | lia ]).
    apply roundHalfAway_normalAtLeast, normalAtLeast_magnitude in HY.
    apply (magnitudeAtLeast_nonzero (-52 - es)), normalAtLeast_magnitude.
    apply (div_normalAtLeast _ _ _ _ 1); [ exact HY | lia | lia ].
Qed.

Lemma round_zero (s : bool) (precision : Z) :
  validPrecision precision -> round (S754_zero s) precision = S754_zero s.
Proof.
  unfold validPrecision. intros H.
  assert (E : precision = 0 \/ precision = 1 \/ precision = 2 \/ precision = 3
              \/ precision = 4 \/ precision = 5 \/ precision = 6 \/ precision = 7
              \/ precision = 8 \/ precision = 9 \/ precision = 10 \/ precision = 11
              \/ precision = 12 \/ precision = 13 \/ precision = 14 \/ precision = 15)
    by lia.
  repeat (destruct E as [-> | E]); try subst precision; destruct s; reflexivity.
Qed.

Lemma derivative_slope_zero (p : Quadratic.QuadraticPolynomial) :
  validPrecision (Quadratic.precision p) ->
  (Quadratic.c2 p === zero)%js = true ->
  (Linear.c1 (Quadratic.derivative p) === zero)%js = true.
Proof.
  intros Hp H. apply eqb_zero_inv in H as [s Hs].
  unfold Quadratic.derivative, Linear.make. cbn [Linear.c1]. rewrite Hs.
  replace (S754_zero s * #2)%js with (S754_zero s) by (now destruct s).
  rewrite (round_zero _ _ Hp). now destruct s.
Qed.

Lemma extreme_is_number (p : Quadratic.QuadraticPolynomial) :
  (Quadratic.c2 p === zero)%js = false -> is_Some (Quadratic.extreme p).
Proof.
  intros H. unfold Quadratic.extreme.
  destruct (Linear.solveInverse _ _); [ eauto | rewrite H; eauto ].
Qed.

(** C3 (as amended).  For a polynomial that the constructor has built,
    at a precision between 0 and 15: [extreme(p)] is the root of the
    derivative when [c2] is non-zero, and it is [null] whenever
    [c2 = 0], whether [c1] is zero or not. *)
Theorem extreme_cases (c0 c1 c2 : number) (precision : Z) :
  validPrecision precision -> valid_binary prec emax c2 = true ->
  let p := Quadratic.make c0 c1 c2 precision in
  ((Quadratic.c2 p === zero)%js = false ->
     is_Some (Linear.root (Quadratic.derivative p))
     /\ Quadratic.extreme p = Linear.root (Quadratic.derivative p))
  /\ ((Quadratic.c2 p === zero)%js = true -> Quadratic.extreme p = None).
Proof.
  intros Hp Hv p. split.
  - intros H.
    assert (Hslope : (Linear.c1 (Quadratic.derivative p) === zero)%js = false)
      by (apply (stored_slope_nonzero c2 precision Hp Hv); exact H).
    unfold Quadratic.extreme, Linear.root, Linear.solveInverse. rewrite Hslope.
    split; [ eauto | reflexivity ].
  - intros H. unfold Quadratic.extreme, Linear.solveInverse.
    rewrite (derivative_slope_zero p Hp H), H. reflexivity.
Qed.

(** [make(0, 1, 2)] has its extreme at -0.25, the root of the
    derivative; [make(0, 0, 0)] and [make(0, 1, 0)] have none, and
    neither has [make(0, 1, 0.1)] at the precision 0, whose [c2] is
    stored as 0. *)
Lemma extreme_cases_witness :
  Quadratic.extreme (Quadratic.make #0 #1 #2 PRECISION) = Some (- (#1 / #4))%js
  /\ Quadratic.extreme (Quadratic.make #0 #0 #0 PRECISION) = None
  /\ Quadratic.extreme (Quadratic.make #0 #1 #0 PRECISION) = None
  /\ Quadratic.extreme (Quadratic.make #0 #1 (#1 / #10) 0) = None.
Proof.
  assert (Hp : validPrecision PRECISION) by (unfold validPrecision, PRECISION; lia).
  assert (Hp0 : validPrecision 0) by (unfold validPrecision; lia).
  split; [ | split; [ | split ] ].
  - exact (proj2 (proj1 (extreme_cases #0 #1 #2 PRECISION Hp eq_refl) eq_refl)).
  - exact (proj2 (extreme_cases #0 #0 #0 PRECISION Hp eq_refl) eq_refl).
  - exact (proj2 (extreme_cases #0 #1 #0 PRECISION Hp eq_refl) eq_refl).
  - exact (proj2 (extreme_cases #0 #1 (#1 / #10)%js 0 Hp0 eq_refl) eq_refl).
Defined.

(** C3 (counterexample to the claim as stated).  For [make(0, 1, 0)],
    where [c2 = 0] and [c1] is non-zero, [extreme] is [null], not 0. *)
Lemma extreme_of_linear_is_null :
  let p := Quadratic.make #0 #1 #0 PRECISION in
  (Quadratic.c2 p === zero)%js = true
  /\ (Quadratic.c1 p === zero)%js = false
  /\ Quadratic.extreme p = None
  /\ Quadratic.extreme p <> Some zero.
Proof. vm_compute. repeat split. discriminate. Qed.

Lemma classify_increasing (ys ye : number) :
  (ye >? ys)%js = true -> guaranteedMonotonicityFromComparison ys ye = increasing.
Proof. intros H. unfold guaranteedMonotonicityFromComparison. now rewrite H. Qed.

Lemma classify_decreasing (ys ye : number) :
  (ye <? ys)%js = true -> guaranteedMonotonicityFromComparison ys ye = decreasing.
Proof.
  intros H. unfold guaranteedMonotonicityFromComparison, gtb.
  now rewrite (ltb_asym _ _ H), H.
Qed.

Lemma classify_constant (ys ye : number) :
  (ye === ys)%js = true -> guaranteedMonotonicityFromComparison ys ye = constant.
Proof.
  intros H. unfold guaranteedMonotonicityFromComparison, gtb.
  rewrite (eqb_not_ltb _ _ H). rewrite eqb_sym in H.
  now rewrite (eqb_not_ltb _ _ H).
Qed.

(** C4.  [monotonicity(p, i)], case by case in the order of the source:
    constant when [c1 = c2 = 0]; the linear monotonicity of
    [c0 + c1 x] when only [c2 = 0]; with [c2] non-zero, constant on an
    interval of size 0, none without an interval or when the extreme
    lies strictly inside the interval, and otherwise the comparison of
    [solve(p, i.start)] with [solve(p, i.end)]. *)
Theorem monotonicity_cases (p : Quadratic.QuadraticPolynomial) :
  ((Quadratic.c2 p === zero)%js = true -> (Quadratic.c1 p === zero)%js = true ->
     forall i, Quadratic.monotonicity p i = constant)
  /\ ((Quadratic.c2 p === zero)%js = true -> (Quadratic.c1 p === zero)%js = false ->
      forall i, Quadratic.monotonicity p i =
                Linear.monotonicity
                  (Linear.make (Quadratic.c0 p) (Quadratic.c1 p) (Quadratic.precision p)))
  /\ ((Quadratic.c2 p === zero)%js = false ->
      (forall i, (Interval.size i === zero)%js = true ->
                 Quadratic.monotonicity p (Some i) = constant)
      /\ Quadratic.monotonicity p None = none
      /\ (forall i e, (Interval.size i === zero)%js = false ->
                      Quadratic.extreme p = Some e ->
                      (Interval.start i <? e)%js = true ->
                      (e <? Interval.end_ i)%js = true ->
                      Quadratic.monotonicity p (Some i) = none)
      /\ (forall i e, (Interval.size i === zero)%js = false ->
                      Quadratic.extreme p = Some e ->
                      (Interval.start i <? e)%js && (e <? Interval.end_ i)%js = false ->
                      let ys := Quadratic.solve p (Interval.start i) in
                      let ye := Quadratic.solve p (Interval.end_ i) in
                      ((ye >? ys)%js = true -> Quadratic.monotonicity p (Some i) = increasing)
                      /\ ((ye <? ys)%js = true -> Quadratic.monotonicity p (Some i) = decreasing)
                      /\ ((ye === ys)%js = true -> Quadratic.monotonicity p (Some i) = constant))).
Proof.
  unfold Quadratic.monotonicity. split; [ | split ].
  - intros -> -> i. reflexivity.
  - intros -> -> i. reflexivity.
  - intros ->. cbn [andb]. split; [ | split; [ | split ] ].
    + intros i ->. reflexivity.
    + reflexivity.
    + intros i e -> -> Hs He. change (asNumber (Some e)) with e.
      unfold Interval.contains. now rewrite Hs, He.
    + intros i e -> -> Hin. change (asNumber (Some e)) with e.
      unfold Interval.contains. rewrite Hin.
      split; [ apply classify_increasing | split;
               [ apply classify_decreasing | apply classify_constant ] ].
Qed.

(** The cases of the repository's test of [monotonicity], through the
    theorem. *)
Lemma monotonicity_cases_witness :
  let p := Quadratic.make #0 #1 #2 PRECISION in
  let e := (- (#1 / #4))%js in
  Quadratic.monotonicity (Quadratic.make #0 #0 #0 PRECISION) None = constant
  /\ Quadratic.monotonicity (Quadratic.make #0 #1 #0 PRECISION) None = increasing
  /\ Quadratic.monotonicity p None = none
  /\ Quadratic.monotonicity p (Some (Interval.Build e e PRECISION)) = constant
  /\ Quadratic.monotonicity p (Some (Interval.Build (- #1)%js #1 PRECISION)) = none
  /\ Quadratic.monotonicity p (Some (Interval.Build #0 #1 PRECISION)) = increasing
  /\ Quadratic.monotonicity p (Some (Interval.Build (- #2)%js e PRECISION)) = decreasing.
Proof.
  intros p e.
  pose proof (monotonicity_cases (Quadratic.make #0 #0 #0 PRECISION)) as (H0 & _ & _).
  pose proof (monotonicity_cases (Quadratic.make #0 #1 #0 PRECISION)) as (_ & H1 & _).
  pose proof (monotonicity_cases p) as (_ & _ & H2).
  destruct (H2 eq_refl) as (Hpoint & Hnone & Hinside & Hcompare).
  split; [ exact (H0 eq_refl eq_refl None) | ].
  split; [ exact (H1 eq_refl eq_refl None) | ].
  split; [ exact Hnone | ].
  split; [ exact (Hpoint (Interval.Build e e PRECISION) eq_refl) | ].
  split; [ exact (Hinside (Interval.Build (- #1)%js #1 PRECISION) e
                    eq_refl eq_refl eq_refl eq_refl) | ].
  split.
  - exact (proj1 (Hcompare (Interval.Build #0 #1 PRECISION) e eq_refl eq_refl eq_refl)
             eq_refl).
  - exact (proj1 (proj2 (Hcompare (Interval.Build (- #2)%js e PRECISION) e
                           eq_refl eq_refl eq_refl)) eq_refl).
Defined.

(** ** Roots of a quadratic *)

(** C10.  [roots(p)] is [solveInverse(p, 0)]; [roots(p, i)] is that
    sequence filtered to the roots [r] with
    [min(i.start, i.end) <= r <= max(i.start, i.end)]: the same
    entries, as often, in the same order. *)
Theorem roots_filtered (p : Quadratic.QuadraticPolynomial) :
  Quadratic.roots p None = Quadratic.solveInverse p zero
  /\ forall i : Interval.Interval,
       let lo := Number.min (Interval.start i) (Interval.end_ i) in
       let hi := Number.max (Interval.start i) (Interval.end_ i) in
       Quadratic.roots p (Some i) = keepWithin lo hi (Quadratic.solveInverse p zero)
       /\ (forall r, r ∈ Quadratic.roots p (Some i) <->
                     r ∈ Quadratic.solveInverse p zero
                     /\ (lo <=? r)%js = true /\ (r <=? hi)%js = true)
       /\ Quadratic.roots p (Some i) `sublist_of` Quadratic.solveInverse p zero.
Proof.
  split; [ reflexivity | ].
  intros i lo hi. unfold Quadratic.roots, minMax. fold lo hi. split; [ | split ].
  - unfold geb.
    induction (Quadratic.solveInverse p zero) as [|r rs IH]; [ reflexivity | ].
    rewrite filter_cons, IH. cbn [keepWithin].
    destruct ((lo <=? r)%js && (r <=? hi)%js) eqn:Hr.
    + now rewrite decide_True.
    + rewrite decide_False; [ reflexivity | congruence ].
  - intros r. rewrite list_elem_of_filter. unfold geb, leb.
    rewrite andb_true_iff. tauto.
  - apply sublist_filter.
Qed.

(** The polynomial [16 x^2 - 32 x + 15] at the precision 0 has the
    roots 0.75 and 1.25, both stored as 1: over [[0, 2]] both entries
    are kept. *)
Example roots_keeps_repeated_root :
  Quadratic.roots (Quadratic.make (ofZ 15) (ofZ (-32)) (ofZ 16) 0)
                  (Some (Interval.Build #0 #2 PRECISION))
  = [ofZ 1; ofZ 1].
Proof. vm_compute. reflexivity. Qed.

(** ** Linear systems *)

(** The failure of [solveSystem] is the singular-matrix one, raised
    exactly when the reciprocal of the computed determinant is not
    finite; a computed determinant of zero is such a case. *)
Lemma solveSystem_failure (m : Matrix4x4.Matrix4x4) (v : Vector4.Vector4) :
  Matrix4x4.solveSystem m v = Err SingularMatrix <->
  isFinite (#1 / Matrix4x4.determinant m)%js = false.
Proof.
  unfold Matrix4x4.solveSystem.
  destruct (isFinite (#1 / Matrix4x4.determinant m)%js); simpl;
    split; congruence.
Qed.

Lemma solveSystem_zero_determinant (m : Matrix4x4.Matrix4x4) (v : Vector4.Vector4) :
  (Matrix4x4.determinant m === zero)%js = true ->
  Matrix4x4.solveSystem m v = Err SingularMatrix.
Proof.
  intros H. apply solveSystem_failure.
  apply eqb_zero_inv in H as [s ->]. now destruct s.
Qed.

(** C5 (defect of the code).  The claim: [solveSystem(M, v)] fails
    exactly when the determinant is 0 and otherwise returns, by Cramer's
    rule, the [x] with [M x = v].  [solveSystem] replaces rows where
    Cramer's rule replaces columns, and [determinant] pairs the entries
    of the first row with the minors of the first column.  For the
    identity matrix and [v = (1, 1, 0, 0)] it returns [(0, 1, 0, 0)],
    which the identity does not map to [v]; for the unit upper
    triangular matrix [U] with [U (0, 1, 0, 0) = v] it computes the
    determinant 0 and fails. *)
Theorem solveSystem_is_not_cramer :
  let I := Matrix4x4.make #1 #0 #0 #0  #0 #1 #0 #0  #0 #0 #1 #0  #0 #0 #0 #1 PRECISION in
  let U := Matrix4x4.make #1 #1 #0 #0  #0 #1 #0 #0  #0 #0 #1 #0  #0 #0 #0 #1 PRECISION in
  let v := Vector4.vector4 #1 #1 #0 #0 PRECISION in
  let x := Vector4.vector4 #0 #1 #0 #0 PRECISION in
  Matrix4x4.determinant I = ofZ 1
  /\ Matrix4x4.solveSystem I v = Ok x
  /\ Matrix4x4.vectorProductLeft I x <> v
  /\ Matrix4x4.vectorProductLeft U x = v
  /\ Matrix4x4.determinant U = zero
  /\ Matrix4x4.solveSystem U v = Err SingularMatrix.
Proof. vm_compute. repeat split. discriminate. Qed.

(** ** Segment chunking *)

Lemma windows_length {A : Type} (count stride : nat) (seq : list A) :
  length (Splines.windows count stride seq) = count.
Proof.
  revert seq. induction count as [|count IH]; intros seq; simpl; [ reflexivity | ].
  now rewrite IH.
Qed.

Lemma windows_lookup {A : Type} (count stride : nat) (seq : list A) (k : nat) :
  (k < count)%nat ->
  Splines.windows count stride seq !! k = Some (take 4 (drop (k * stride) seq)).
Proof.
  revert seq k. induction count as [|count IH]; intros seq k Hk; [ lia | ].
  destruct k as [|k]; simpl; [ reflexivity | ].
  rewrite IH by lia. rewrite drop_drop. reflexivity.
Qed.

Lemma validChunking_spec (len : nat) (stride : Z) :
  Splines.validChunking len stride = true <->
  (4 <= len)%nat /\ (stride = 1 \/ stride = 2 \/ stride = 3)
  /\ (Z.of_nat len - 4) mod stride = 0.
Proof.
  unfold Splines.validChunking.
  rewrite !andb_true_iff, !orb_true_iff, Z.leb_le, !Z.eqb_eq. lia.
Qed.

(** C6.  [toCubicScalars(seq, stride)] fails, with InvalidChunking,
    exactly when [seq] has fewer than four elements, or [stride] is not
    1, 2 or 3, or [(seq.length - 4) mod stride] is not 0.  Otherwise it
    returns [(seq.length - 4) / stride + 1] windows, the window [k]
    being the four elements of [seq] from index [k * stride] on; so
    [toBezierSegments([0,1,2,3,4,5,6])] is [[0,1,2,3],[3,4,5,6]]. *)
Theorem toCubicScalars_windows :
  (forall (A : Type) (seq : list A) (stride : Z),
     (Splines.toCubicScalars seq stride = Err InvalidChunking <->
        (length seq < 4)%nat
        \/ ~ (stride = 1 \/ stride = 2 \/ stride = 3)
        \/ (Z.of_nat (length seq) - 4) mod stride <> 0)
     /\ (forall f, Splines.toCubicScalars seq stride = Err f -> f = InvalidChunking)
     /\ (forall ws, Splines.toCubicScalars seq stride = Ok ws ->
           Z.of_nat (length ws) = (Z.of_nat (length seq) - 4) / stride + 1
           /\ forall k, (k < length ws)%nat ->
                exists w, ws !! k = Some w
                          /\ length w = 4%nat
                          /\ forall j, (j < 4)%nat ->
                               w !! j = seq !! (k * Z.to_nat stride + j)%nat))
  /\ Splines.toBezierSegments [0; 1; 2; 3; 4; 5; 6]
     = Ok [[0; 1; 2; 3]; [3; 4; 5; 6]].
Proof.
  split; [ | reflexivity ].
  intros A seq stride. unfold Splines.toCubicScalars.
  set (n := (Z.of_nat (length seq) - 4) / stride).
  remember (S (Z.to_nat n)) as count eqn:Hcount.
  pose proof (validChunking_spec (length seq) stride) as Hv.
  destruct (Splines.validChunking (length seq) stride).
  - destruct (proj1 Hv eq_refl) as (Hlen & Hstride & Hmod).
    split; [ split; [ discriminate | lia ] | ].
    split; [ discriminate | ].
    intros ws [= <-]. rewrite windows_length.
    assert (Hn : 0 <= n) by (apply Z.div_pos; lia).
    assert (Hle : stride * n <= Z.of_nat (length seq) - 4)
      by (apply Z.mul_div_le; lia).
    split; [ lia | ].
    intros k Hk. rewrite windows_lookup by lia.
    eexists. split; [ reflexivity | ].
    assert (Hfit : (k * Z.to_nat stride + 4 <= length seq)%nat) by nia.
    split.
    + rewrite length_take, length_drop. lia.
    + intros j Hj. rewrite lookup_take_lt by lia. now rewrite lookup_drop.
  - split; [ split; [ intros _ | reflexivity ] | ].
    + destruct (decide (length seq < 4)%nat); [ now left | right ].
      destruct (decide (stride = 1 \/ stride = 2 \/ stride = 3)); [ right | now left ].
      intros Hmod. assert (false = true); [ apply Hv; repeat split | discriminate ]; lia || assumption.
    + split; [ now intros f [= <-] | discriminate ].
Qed.

(** The Hermite chunking of the repository's test: six scalars, stride
    two, two windows. *)
Lemma toCubicScalars_windows_witness :
  exists ws, Splines.toHermiteSegments [0; 1; 2; 3; 4; 5] = Ok ws
             /\ Z.of_nat (length ws) = 2
             /\ exists w, ws !! 1%nat = Some w /\ w !! 3%nat = Some 5.
Proof.
  destruct (proj1 toCubicScalars_windows Z [0; 1; 2; 3; 4; 5] 2) as (_ & _ & H).
  exists [[0; 1; 2; 3]; [2; 3; 4; 5]].
  destruct (H _ eq_refl) as (Hlen & Hw).
  split; [ reflexivity | split; [ exact Hlen | ] ].
  destruct (Hw 1%nat ltac:(simpl; lia)) as (w & Hk & _ & Hj).
  exists w. split; [ exact Hk | exact (Hj 3%nat ltac:(lia)) ].
Defined.

(** ** Characteristic matrices *)

(** The matrix of section 4.9 and the expectation of the repository's
    test hold the same four rows in opposite orders.  Which of them
    [cardinal] returns is decided by code that is not among the
    sources. *)
Lemma cardinalExpected_reverses_section_4_9 (a : number) :
  Splines.cardinalExpected a = reverse (Splines.Cardinal_4_9 a).
Proof. reflexivity. Qed.

(** ** The type guard of 4x4 matrices *)

(** C9.  [isMatrix4x4(v)] is true exactly when [typeof v] is 'object',
    that is for [null] and for every object, whatever its properties:
    also for an object with none of the sixteen matrix fields.  It is
    false for every other value. *)
Theorem isMatrix4x4_is_typeof_object :
  (forall v, Value.isMatrix4x4 v = true <-> Value.typeof v = "object")
  /\ (forall v, Value.isMatrix4x4 v = true <->
                v = Value.VNull \/ exists properties, v = Value.VObject properties)
  /\ (forall v, Value.isMatrix4x4 v = false <-> Value.typeof v <> "object")
  /\ Value.isMatrix4x4 Value.VNull = true
  /\ (forall properties properties',
        Value.isMatrix4x4 (Value.VObject properties)
        = Value.isMatrix4x4 (Value.VObject properties'))
  /\ Forall (fun field => Value.hasProperty field (Value.VObject []) = false)
            Value.matrixFields
  /\ Value.isMatrix4x4 (Value.VObject []) = true.
Proof.
  split; [ | split; [ | split; [ | split; [ | split; [ | split ] ] ] ] ].
  - intros v. unfold Value.isMatrix4x4. apply bool_decide_eq_true.
  - intros v. destruct v; cbn; split; try discriminate; eauto;
      intros [H | [properties H]]; discriminate.
  - intros v. unfold Value.isMatrix4x4. apply bool_decide_eq_false.
  - reflexivity.
  - reflexivity.
  - unfold Value.matrixFields. repeat constructor.
  - reflexivity.
Qed.

(** ** Solving a curve for a position on one axis *)

Section SolveRemaining.

Variables (c : Curve.Curve) (axis : Curve.Axis) (t : number) (precision : Z).

(** The loop fails only when a key has no axis. *)
Lemma solveRemaining_failure (keys : list string) (res : Curve.Point) (f : failure) :
  Curve.solveRemaining c axis t precision keys res = Err f -> f = TypeError.
Proof.
  revert res. induction keys as [|key keys IH]; intros res; simpl; [ discriminate | ].
  destruct (Curve.notStrictlyEqual key axis); [ | apply IH ].
  unfold Curve.axisOf. destruct (Curve.axes c !! key); simpl; [ apply IH | congruence ].
Qed.

(** When every key has an axis the loop ends with a point that agrees
    with the initial one outside the keys and on the keys that are
    strictly equal to [axis], and holds the rounded position of every
    other key. *)
Lemma solveRemaining_result (keys : list string) (res : Curve.Point) :
  (forall key, key ∈ keys -> is_Some (Curve.axes c !! key)) ->
  exists pt,
    Curve.solveRemaining c axis t precision keys res = Ok pt
    /\ (forall key, key ∉ keys \/ Curve.notStrictlyEqual key axis = false ->
          pt !! key = res !! key)
    /\ (forall key a, key ∈ keys -> Curve.notStrictlyEqual key axis = true ->
          Curve.axes c !! key = Some a ->
          pt !! key = Some (round (Curve.solvePosition a t) precision)).
Proof.
  revert res. induction keys as [|key keys IH]; intros res Hkeys; simpl.
  - exists res. split; [ reflexivity | ]. split; [ reflexivity | ].
    intros key a Hin. now apply elem_of_nil in Hin.
  - assert (Hkeys' : forall k, k ∈ keys -> is_Some (Curve.axes c !! k))
      by (intros k Hk; apply Hkeys; now right).
    destruct (Curve.notStrictlyEqual key axis) eqn:Hne.
    + destruct (Hkeys key ltac:(left)) as [b Hb].
      unfold Curve.axisOf. rewrite Hb. simpl.
      destruct (IH (<[key := round (Curve.solvePosition b t) precision]> res) Hkeys')
        as (pt & Hpt & Hkeep & Hset).
      exists pt. split; [ exact Hpt | ]. split.
      * intros k Hk. rewrite Hkeep.
        -- apply lookup_insert_ne. intros ->. destruct Hk as [Hk | Hk];
             [ apply Hk; left | congruence ].
        -- destruct Hk as [Hk | Hk]; [ left | now right ].
           intros Hin. apply Hk. now right.
      * intros k a Hin Hk Ha.
        destruct (decide (k ∈ keys)) as [Hin' | Hin']; [ now apply (Hset k a) | ].
        apply elem_of_cons in Hin as [-> | Hin]; [ | contradiction ].
        rewrite Hkeep by now left. rewrite lookup_insert_eq. congruence.
    + destruct (IH res Hkeys') as (pt & Hpt & Hkeep & Hset).
      exists pt. split; [ exact Hpt | ]. split.
      * intros k [Hk | Hk]; apply Hkeep; [ left | now right ].
        intros Hin. apply Hk. now right.
      * intros k a Hin Hk Ha. apply (Hset k a); try assumption.
        apply elem_of_cons in Hin as [-> | Hin]; [ congruence | assumption ].
Qed.

End SolveRemaining.

(** C8.  [solveWhere(axis, position)] fails with NonMonotonicAxis
    exactly when the monotonicity of the chosen axis is 'none'; on a
    monotone axis it fails with RootUnsolvable exactly when the axis
    finds no parameter for the position over its domain; otherwise the
    point it returns holds, on every axis key that is not strictly equal
    to [axis], the rounded position of that axis at the parameter
    found.  For an axis given by name these are all keys but the chosen
    one, which holds the rounded position asked for; for an axis given
    by a number no key, a string, is strictly equal to it, and every
    axis is evaluated at the parameter. *)
Theorem solveWhere_cases (toString : number -> string) (c : Curve.Curve)
    (axis : Curve.Axis) (position : number) (precision : Z) :
  let chosen := Curve.propertyKey toString axis in
  (Curve.solveWhere toString c axis position precision = Err NonMonotonicAxis <->
     exists a, Curve.axes c !! chosen = Some a /\ Curve.monotonicity a = none)
  /\ (Curve.solveWhere toString c axis position precision = Err RootUnsolvable <->
      exists a, Curve.axes c !! chosen = Some a
                /\ Curve.monotonicity a <> none
                /\ Curve.solveT a position (Curve.domain a) = [])
  /\ (forall a t rest,
        Curve.axes c !! chosen = Some a ->
        Curve.monotonicity a <> none ->
        Curve.solveT a position (Curve.domain a) = t :: rest ->
        (forall key, key ∈ Curve.axisKeys c -> is_Some (Curve.axes c !! key)) ->
        exists pt,
          Curve.solveWhere toString c axis position precision = Ok pt
          /\ (forall key b, key ∈ Curve.axisKeys c ->
                Curve.notStrictlyEqual key axis = true ->
                Curve.axes c !! key = Some b ->
                pt !! key = Some (round (Curve.solvePosition b t) precision))
          /\ (chosen ∉ Curve.axisKeys c \/ Curve.notStrictlyEqual chosen axis = false ->
              pt !! chosen = Some (round position precision))
          /\ (forall key, key ∉ Curve.axisKeys c -> key <> chosen -> pt !! key = None)
          /\ (forall name, axis = Curve.AxisName name ->
                pt !! name = Some (round position precision)
                /\ forall key b, key ∈ Curve.axisKeys c -> key <> name ->
                     Curve.axes c !! key = Some b ->
                     pt !! key = Some (round (Curve.solvePosition b t) precision))
          /\ (forall index, axis = Curve.AxisIndex index ->
                forall key b, key ∈ Curve.axisKeys c ->
                  Curve.axes c !! key = Some b ->
                  pt !! key = Some (round (Curve.solvePosition b t) precision))).
Proof.
  intros chosen. unfold Curve.solveWhere, Curve.axisOf. fold chosen.
  destruct (Curve.axes c !! chosen) as [a|] eqn:Ha; simpl.
  2:{ split; [ | split ].
      - split; [ discriminate | intros (a & [=] & _) ].
      - split; [ discriminate | intros (a & [=] & _) ].
      - intros a t rest [=]. }
  destruct (decide (Curve.monotonicity a = none)) as [Hm | Hm].
  { rewrite bool_decide_eq_false_2 by tauto. simpl.
    split; [ | split ].
    - split; [ eauto | reflexivity ].
    - split; [ discriminate | intros (a' & [= <-] & Hm' & _); contradiction ].
    - intros a' t rest [= <-] Hm'. contradiction. }
  rewrite bool_decide_eq_true_2 by assumption. simpl.
  destruct (Curve.solveT a position (Curve.domain a)) as [|t rest] eqn:Ht; simpl.
  { split; [ | split ].
    - split; [ discriminate | intros (a' & [= <-] & Hm'); contradiction ].
    - split; [ intros _; exists a; auto | reflexivity ].
    - intros a' t rest [= <-] _ Ht'. rewrite Ht in Ht'. discriminate. }
  split; [ | split ].
  - split; [ intros H; apply solveRemaining_failure in H; discriminate | ].
    intros (a' & [= <-] & Hm'). contradiction.
  - split; [ intros H; apply solveRemaining_failure in H; discriminate | ].
    intros (a' & [= <-] & _ & Ht'). rewrite Ht in Ht'. discriminate.
  - intros a' t' rest' [= <-] _ Ht' Hkeys. rewrite Ht in Ht'.
    injection Ht' as <- <-.
    destruct (solveRemaining_result c axis t precision (Curve.axisKeys c)
                {[ chosen := round position precision ]} Hkeys)
      as (pt & Hpt & Hkeep & Hset).
    assert (Hchosen : chosen ∉ Curve.axisKeys c \/ Curve.notStrictlyEqual chosen axis = false ->
                      pt !! chosen = Some (round position precision)).
    { intros H. rewrite Hkeep by exact H. apply lookup_singleton_eq. }
    exists pt. split; [ exact Hpt | ]. split; [ exact Hset | ].
    split; [ exact Hchosen | ]. split; [ | split ].
    + intros key Hin Hne. rewrite Hkeep by now left.
      apply lookup_singleton_ne. congruence.
    + intros name ->. cbn in *. split.
      * apply Hchosen. right. now apply bool_decide_eq_false_2; intros H; apply H.
      * intros key b Hin Hne Hb. apply (Hset key b); try assumption.
        now apply bool_decide_eq_true_2.
    + intros index -> key b Hin Hb. now apply (Hset key b).
Qed.

(** On the sample curve: [z] is not monotone, no parameter of [x]
    reaches 2, and [x = 0.5] is reached at [t = 0.5], where [y = 1];
    asked through a number that converts to the key [y], the position
    0.5 is reached at [t = 0.25], where [x = 0.25]. *)
Lemma solveWhere_cases_witness :
  let toString := fun _ : number => "y" in
  Curve.solveWhere toString SampleCurve.curve (Curve.AxisName "z") (#1 / #2)%js PRECISION
  = Err NonMonotonicAxis
  /\ Curve.solveWhere toString SampleCurve.curve (Curve.AxisName "x") #2 PRECISION
     = Err RootUnsolvable
  /\ (exists pt,
        Curve.solveWhere toString SampleCurve.curve (Curve.AxisName "x") (#1 / #2)%js PRECISION
        = Ok pt
        /\ pt !! "x" = Some (#1 / #2)%js
        /\ pt !! "y" = Some (ofZ 1)
        /\ pt !! "w" = None)
  /\ (exists pt,
        Curve.solveWhere toString SampleCurve.curve (Curve.AxisIndex #1) (#1 / #2)%js PRECISION
        = Ok pt
        /\ pt !! "x" = Some (#1 / #4)%js
        /\ pt !! "y" = Some (#1 / #2)%js).
Proof.
  intros toString.
  assert (Hkeys : forall key, key ∈ Curve.axisKeys SampleCurve.curve ->
                              is_Some (Curve.axes SampleCurve.curve !! key)).
  { intros key Hin. cbn in Hin.
    repeat (apply elem_of_cons in Hin as [-> | Hin]); [ | | | now apply elem_of_nil in Hin ];
      eexists; reflexivity. }
  split; [ | split; [ | split ] ].
  - apply (proj1 (solveWhere_cases toString SampleCurve.curve (Curve.AxisName "z")
                    (#1 / #2)%js PRECISION)).
    exists SampleCurve.zAxis. split; reflexivity.
  - apply (proj1 (proj2 (solveWhere_cases toString SampleCurve.curve (Curve.AxisName "x")
                           #2 PRECISION))).
    exists SampleCurve.xAxis. split; [ reflexivity | split; [ discriminate | reflexivity ] ].
  - destruct (proj2 (proj2 (solveWhere_cases toString SampleCurve.curve (Curve.AxisName "x")
                              (#1 / #2)%js PRECISION))
                SampleCurve.xAxis (#1 / #2)%js [] eq_refl ltac:(discriminate) eq_refl Hkeys)
      as (pt & Hpt & _ & _ & Hnone & Hname & _).
    destruct (Hname "x" eq_refl) as [Hx Hothers].
    exists pt. split; [ exact Hpt | ]. split; [ exact Hx | ]. split.
    + apply (Hothers "y" SampleCurve.yAxis); [ | discriminate | reflexivity ].
      cbn. right. left.
    + apply Hnone; [ | discriminate ]. cbn.
      intros Hin. repeat (apply elem_of_cons in Hin as [[=] | Hin]).
      now apply elem_of_nil in Hin.
  - destruct (proj2 (proj2 (solveWhere_cases toString SampleCurve.curve (Curve.AxisIndex #1)
                              (#1 / #2)%js PRECISION))
                SampleCurve.yAxis (#1 / #4)%js [] eq_refl ltac:(discriminate) eq_refl Hkeys)
      as (pt & Hpt & _ & _ & _ & _ & Hindex).
    exists pt. split; [ exact Hpt | ]. split.
    + apply (Hindex (ofZ 1) eq_refl "x" SampleCurve.xAxis); [ cbn; left | reflexivity ].
    + apply (Hindex (ofZ 1) eq_refl "y" SampleCurve.yAxis); [ cbn; right; left | reflexivity ].
Defined.

(** ** The repository's tests

    The expectations of [test/polynomial.spec.ts] and of the splines
    test that concern the definitions above, evaluated. *)

Example test_quadratic_solve :
  let p := Quadratic.make #0 #1 #2 PRECISION in
  Quadratic.solve p #0 = ofZ 0
  /\ Quadratic.solve p #1 = ofZ 3
  /\ Quadratic.solve p #2 = ofZ 10.
Proof. repeat split. Qed.

Example test_quadratic_solveInverse :
  let p := Quadratic.make #0 #1 #2 PRECISION in
  Quadratic.solveInverse p #0 = [ - (#1 / #2); #0 ]%js
  /\ Quadratic.solveInverse p (- (#1 / #8))%js = [ - (#1 / #4) ]%js
  /\ Quadratic.solveInverse p (- (#1 / #2))%js = [].
Proof. repeat split. Qed.

Example test_quadratic_derivative :
  Quadratic.derivative (Quadratic.make #0 #1 #2 PRECISION) = Linear.make #1 #4 PRECISION.
Proof. reflexivity. Qed.

Example test_quadratic_roots :
  Quadratic.roots (Quadratic.make #0 #1 #2 PRECISION) None = [ - (#1 / #2); #0 ]%js.
Proof. reflexivity. Qed.

Example test_quadratic_monotonicity :
  let p := Quadratic.make #0 #1 #2 PRECISION in
  let quarter := (#1 / #4)%js in
  let interval (a b : number) := Some (Interval.Build a b PRECISION) in
  Quadratic.monotonicity (Quadratic.make #0 #0 #0 PRECISION) None = constant
  /\ Quadratic.monotonicity (Quadratic.make #0 #1 #0 PRECISION) None = increasing
  /\ Quadratic.monotonicity (Quadratic.make #0 (- #1)%js #0 PRECISION) None = decreasing
  /\ Quadratic.monotonicity p None = none
  /\ Quadratic.monotonicity p (interval (ofZ 0) (ofZ 1)) = increasing
  /\ Quadratic.monotonicity p (interval (ofZ (-2)) (ofZ (-1))) = decreasing
  /\ Quadratic.monotonicity p (interval (ofZ (-2)) (neg quarter)) = decreasing
  /\ Quadratic.monotonicity p (interval (neg quarter) (neg quarter)) = constant
  /\ Quadratic.monotonicity p (interval (neg quarter) (ofZ 1)) = increasing
  /\ Quadratic.monotonicity p (interval (ofZ 1) (ofZ 2)) = increasing.
Proof. repeat split. Qed.

Example test_toCubicScalars :
  Splines.toCubicScalars [0; 0; 0] 1 = Err InvalidChunking
  /\ Splines.toCubicScalars [0; 1; 2; 3; 4] 2 = Err InvalidChunking
  /\ Splines.toCubicScalars [0; 1; 2; 3; 4] 3 = Err InvalidChunking
  /\ Splines.toCubicScalars [0; 1; 2; 3; 4] 0 = Err InvalidChunking
  /\ Splines.toCubicScalars [0; 1; 2; 3; 4] 4 = Err InvalidChunking
  /\ Splines.toCubicScalars [0; 1; 2; 3; 4] 1 = Ok [[0; 1; 2; 3]; [1; 2; 3; 4]]
  /\ Splines.toCubicScalars [0; 1; 2; 3; 4; 5] 2 = Ok [[0; 1; 2; 3]; [2; 3; 4; 5]]
  /\ Splines.toCubicScalars [0; 1; 2; 3; 4; 5; 6] 3 = Ok [[0; 1; 2; 3]; [3; 4; 5; 6]].
Proof. repeat split. Qed.

Example test_toBezierSegments :
  Splines.toBezierSegments [0; 1; 2; 3] = Ok [[0; 1; 2; 3]]
  /\ Splines.toBezierSegments [0; 1; 2; 3; 4; 5; 6; 7; 8; 9]
     = Ok [[0; 1; 2; 3]; [3; 4; 5; 6]; [6; 7; 8; 9]]
  /\ Splines.toBezierSegments [0; 1; 2; 3; 4] = Err InvalidChunking.
Proof. repeat split. Qed.

Example test_toHermiteSegments :
  Splines.toHermiteSegments [0; 1; 2; 3; 4; 5; 6; 7]
  = Ok [[0; 1; 2; 3]; [2; 3; 4; 5]; [4; 5; 6; 7]]
  /\ Splines.toHermiteSegments [0; 1; 2; 3; 4] = Err InvalidChunking.
Proof. repeat split. Qed.

Example test_toCardinalSegments :
  Splines.toCardinalSegments [0; 1; 2; 3; 4; 5]
  = Ok [[0; 1; 2; 3]; [1; 2; 3; 4]; [2; 3; 4; 5]]
  /\ Splines.toCatmullRomSegments [0; 1; 2; 3; 4] = Ok [[0; 1; 2; 3]; [1; 2; 3; 4]]
  /\ Splines.toBSplineSegments [0; 1; 2; 3] = Ok [[0; 1; 2; 3]].
Proof. repeat split. Qed.

(** * Further properties *)

(** ** More on [solveInverse] *)

Lemma round_NaN (precision : Z) : round NaN precision = NaN.
Proof. unfold round. now destruct (precision =? PRECISION_MAX). Qed.

Lemma solveInverse_empty_iff (p : Quadratic.QuadraticPolynomial) (y : number) :
  Quadratic.solveInverse p y = [] <-> (Quadratic.discriminant p y <? zero)%js = true.
Proof.
  unfold Quadratic.solveInverse.
  destruct (Quadratic.discriminant p y <? zero)%js; [easy|].
  destruct (Quadratic.discriminant p y === zero)%js; [easy|].
  rewrite toSorted_pair.
  match goal with |- context [if ?b then _ else _] => destruct b end; easy.
Qed.

Lemma solveInverse_at_most_two (p : Quadratic.QuadraticPolynomial) (y : number) :
  (length (Quadratic.solveInverse p y) <= 2)%nat
  /\ ((Quadratic.discriminant p y <? zero)%js = false ->
      (1 <= length (Quadratic.solveInverse p y))%nat).
Proof.
  unfold Quadratic.solveInverse.
  destruct (Quadratic.discriminant p y <? zero)%js; [simpl; split; [lia|easy]|].
  destruct (Quadratic.discriminant p y === zero)%js; [simpl; lia|].
  rewrite toSorted_pair.
  match goal with |- context [if ?b then _ else _] => destruct b end; simpl; lia.
Qed.

(** X1.  The number of entries of [solveInverse(p, y)] is decided by
    the two tests on the discriminant alone: none exactly when
    [discriminant < 0] holds, one exactly when it does not and
    [discriminant === 0] holds, two exactly when neither holds (which
    includes a discriminant that is NaN); never more than two. *)
Theorem solveInverse_length (p : Quadratic.QuadraticPolynomial) (y : number) :
  let D := Quadratic.discriminant p y in
  (Quadratic.solveInverse p y = [] <-> (D <? zero)%js = true)
  /\ (length (Quadratic.solveInverse p y) = 1%nat
      <-> (D <? zero)%js = false /\ (D === zero)%js = true)
  /\ (length (Quadratic.solveInverse p y) = 2%nat
      <-> (D <? zero)%js = false /\ (D === zero)%js = false)
  /\ (length (Quadratic.solveInverse p y) <= 2)%nat.
Proof.
  intros D. split; [apply solveInverse_empty_iff|].
  unfold Quadratic.solveInverse. fold D.
  destruct (D <? zero)%js; [simpl; intuition (discriminate || lia)|].
  destruct (D === zero)%js; [simpl; intuition (discriminate || lia)|].
  rewrite toSorted_pair.
  match goal with |- context [if ?b then _ else _] => destruct b end;
    simpl; intuition (discriminate || lia).
Qed.

(** X2.  When the discriminant is NaN, as it is when [c1 ** 2] and
    [4 * c2 * (c0 - y)] both overflow to Infinity, neither test on it
    holds and [solveInverse] returns two entries that are both NaN. *)
Theorem solveInverse_NaN_discriminant (p : Quadratic.QuadraticPolynomial) (y : number) :
  isNaN (Quadratic.discriminant p y) = true ->
  Quadratic.solveInverse p y = [NaN; NaN].
Proof.
  intros H. unfold Quadratic.solveInverse.
  destruct (Quadratic.discriminant p y); try discriminate.
  change (S754_nan <? zero)%js with false.
  change (S754_nan === zero)%js with false.
  cbv iota. rewrite toSorted_pair.
  change (sqrt S754_nan) with NaN.
  replace (- Quadratic.c1 p + NaN)%js with NaN by now destruct (- Quadratic.c1 p)%js.
  replace (- Quadratic.c1 p - NaN)%js with NaN by now destruct (- Quadratic.c1 p)%js.
  change (NaN / (#2 * Quadratic.c2 p))%js with NaN.
  rewrite round_NaN. reflexivity.
Qed.

Lemma solveInverse_NaN_discriminant_witness :
  let p := Quadratic.make (ofZ (2 ^ 100)) (ofZ (2 ^ 600)) (ofZ (2 ^ 1000)) PRECISION in
  isFinite (Quadratic.c0 p) && isFinite (Quadratic.c1 p) && isFinite (Quadratic.c2 p) = true
  /\ Quadratic.solveInverse p #0 = [NaN; NaN].
Proof.
  split; [reflexivity|].
  apply (solveInverse_NaN_discriminant
           (Quadratic.make (ofZ (2 ^ 100)) (ofZ (2 ^ 600)) (ofZ (2 ^ 1000)) PRECISION) #0).
  vm_compute. reflexivity.
Defined.

(** X3.  [domain(p, range)] is [null] exactly when the discriminant is
    negative at both ends of the range; otherwise it is
    [Interval.fromMinMax] of the inverse solutions at the start followed
    by those at the end, between one and four values. *)
Theorem domain_cases (fromMinMax : list number -> Interval.Interval)
    (p : Quadratic.QuadraticPolynomial) (range : Interval.Interval) :
  let values := Quadratic.solveInverse p (Interval.start range)
                ++ Quadratic.solveInverse p (Interval.end_ range) in
  (QuadraticGuards.domain fromMinMax p range = None <->
     (Quadratic.discriminant p (Interval.start range) <? zero)%js = true
     /\ (Quadratic.discriminant p (Interval.end_ range) <? zero)%js = true)
  /\ (QuadraticGuards.domain fromMinMax p range <> None <->
      QuadraticGuards.domain fromMinMax p range = Some (fromMinMax values)
      /\ (1 <= length values <= 4)%nat).
Proof.
  intros values. subst values. unfold QuadraticGuards.domain.
  pose proof (solveInverse_empty_iff p (Interval.start range)) as Hs.
  pose proof (solveInverse_empty_iff p (Interval.end_ range)) as He.
  pose proof (solveInverse_at_most_two p (Interval.start range)) as [Hs2 _].
  pose proof (solveInverse_at_most_two p (Interval.end_ range)) as [He2 _].
  rewrite length_app.
  destruct (Quadratic.solveInverse p (Interval.start range)) as [|a l];
  destruct (Quadratic.solveInverse p (Interval.end_ range)) as [|b l'];
    simpl in *; (split; split);
    try (intros; discriminate);
    try (intros [? ?]; discriminate);
    try (intros; split; [tauto|tauto]);
    try tauto;
    try (intros _; split; [reflexivity| lia]).
  - intros [H1 H2]. apply He in H2. discriminate.
  - intros [H1 H2]. apply Hs in H1. discriminate.
  - intros [H1 H2]. apply Hs in H1. discriminate.
Qed.

(** X4.  [isQuadraticPolynomial] accepts exactly the objects that carry
    the type id: it rejects [null], which [isMatrix4x4] accepts, and
    every value it accepts is accepted by [isMatrix4x4] too. *)
Theorem isQuadraticPolynomial_guard (typeId : string) (v : Value.value) :
  (QuadraticGuards.isQuadraticPolynomial typeId v = true <->
     exists properties, v = Value.VObject properties /\ typeId ∈ properties.*1)
  /\ (QuadraticGuards.isQuadraticPolynomial typeId v = true ->
      Value.isMatrix4x4 v = true)
  /\ QuadraticGuards.isQuadraticPolynomial typeId Value.VNull = false
  /\ Value.isMatrix4x4 Value.VNull = true.
Proof.
  split; [|split; [|split; reflexivity]].
  - unfold QuadraticGuards.isQuadraticPolynomial. destruct v; simpl; split;
      try discriminate; try (intros (q & Hq & _); discriminate).
    + intros H. exists properties. split; [reflexivity|].
      now apply bool_decide_eq_true in H.
    + intros (q & Hq & Hin). injection Hq as <-.
      now apply bool_decide_eq_true.
  - unfold QuadraticGuards.isQuadraticPolynomial, Value.isMatrix4x4.
    intros H. apply andb_true_iff in H as [H _]. now apply andb_true_iff in H as [H _].
Qed.

(** ** Opposite numbers *)

Lemma neg_involutive (x : number) : (- - x)%js = x.
Proof. destruct x as [s|s| |s m e]; cbn; now rewrite ?negb_involutive. Qed.

Lemma binary_round_aux_neg (s : bool) (m e : Z) (l : location) :
  binary_round_aux prec emax (negb s) m e l = (- binary_round_aux prec emax s m e l)%js.
Proof.
  unfold binary_round_aux.
  destruct (shr_fexp prec emax m e l) as [mrs' e'].
  destruct (shr_fexp prec emax _ e' loc_Exact) as [mrs'' e''].
  destruct (shr_m mrs'') as [|m0|m0]; try reflexivity.
  now destruct (e'' <=? emax - prec).
Qed.

Lemma div_neg (x y : number) : (- x / y)%js = (- (x / y))%js.
Proof.
  destruct x as [sx|sx| |sx mx ex], y as [sy|sy| |sy my ey]; try reflexivity;
    cbn; rewrite ?negb_xorb_l; try reflexivity.
  unfold div, SFdiv.
  destruct (SFdiv_core_binary prec emax (Z.pos mx) ex (Z.pos my) ey) as [[q e'] l].
  rewrite <- binary_round_aux_neg. now rewrite negb_xorb_l.
Qed.

Lemma mul_neg (x y : number) : (- x * y)%js = (- (x * y))%js.
Proof.
  destruct x as [sx|sx| |sx mx ex], y as [sy|sy| |sy my ey]; try reflexivity;
    cbn; rewrite ?negb_xorb_l; try reflexivity.
  unfold mul, SFmul. rewrite <- binary_round_aux_neg. now rewrite negb_xorb_l.
Qed.

Lemma roundHalfAway_neg (x : number) : roundHalfAway (- x)%js = (- roundHalfAway x)%js.
Proof.
  destruct x as [s|s| |s m e]; try reflexivity.
  cbn [neg SFopp roundHalfAway]. destruct (0 <=? e) eqn:He; [reflexivity|].
  apply Z.leb_gt in He.
  set (d := 2 ^ (- e)).
  assert (Hd : 0 < d) by (apply Z.pow_pos_nonneg; lia).
  assert (Hq : 0 <= Z.pos m / d) by (apply Z.div_pos; lia).
  set (n := if d <=? 2 * (Z.pos m mod d) then Z.pos m / d + 1 else Z.pos m / d).
  assert (Hn : 0 <= n) by (unfold n; destruct (d <=? _); lia).
  destruct n as [|n0|n0]; try lia.
  - now destruct s.
  - destruct s; cbn [negb];
      change (cond_Zopp true (Z.pos n0)) with (Z.neg n0);
      change (cond_Zopp false (Z.pos n0)) with (Z.pos n0);
      cbn [binary_normalize]; unfold binary_round;
      destruct (shl_align n0 0 _) as [mz ez];
      [ exact (binary_round_aux_neg true (Z.pos mz) ez loc_Exact)
      | exact (binary_round_aux_neg false (Z.pos mz) ez loc_Exact) ].
Qed.

Lemma round_neg (x : number) (precision : Z) :
  round (- x)%js precision = (- round x precision)%js.
Proof.
  unfold round. destruct (precision =? PRECISION_MAX); [reflexivity|].
  now rewrite mul_neg, roundHalfAway_neg, div_neg.
Qed.

(** Rounding a zero gives a zero, or NaN when the scale is not a
    non-zero finite number, whatever the sign of the zero. *)
Lemma round_zeros (s1 s2 : bool) (precision : Z) :
  (round (S754_zero s1) precision = NaN /\ round (S754_zero s2) precision = NaN)
  \/ (exists t1 t2, round (S754_zero s1) precision = S754_zero t1
                    /\ round (S754_zero s2) precision = S754_zero t2).
Proof.
  unfold round. destruct (precision =? PRECISION_MAX); [right; eauto|].
  destruct (pow10 precision) as [s|s| |s m e]; cbn; eauto.
Qed.

(** X5.  For a quadratic without a linear term ([c1] is a zero), when
    the discriminant is neither negative nor zero, the two entries of
    [solveInverse(p, y)] are opposite numbers: the one is exactly the
    negation of the other, or both are zeros. *)
Theorem solveInverse_even (p : Quadratic.QuadraticPolynomial) (y : number) :
  (Quadratic.c1 p === zero)%js = true ->
  (Quadratic.discriminant p y <? zero)%js = false ->
  (Quadratic.discriminant p y === zero)%js = false ->
  exists a b,
    Quadratic.solveInverse p y = [a; b]
    /\ (a = (- b)%js \/ ((a === zero)%js = true /\ (b === zero)%js = true)).
Proof.
  intros Hc1 Hlt Heq. unfold Quadratic.solveInverse. rewrite Hlt, Heq.
  apply eqb_zero_inv in Hc1 as [sc Hc1]. rewrite Hc1.
  set (s := sqrt (Quadratic.discriminant p y)).
  set (d := (#2 * Quadratic.c2 p)%js).
  rewrite toSorted_pair.
  assert (Hzero : forall t, (S754_zero t === zero)%js = true) by (now intros []).
  destruct s as [ss|ss| |ss ms es] eqn:Hs.
  - (* the square root is a zero *)
    assert (Hu : exists t, (- S754_zero sc + S754_zero ss)%js = S754_zero t)
      by (destruct sc, ss; cbn; eauto).
    assert (Hu' : exists t, (- S754_zero sc - S754_zero ss)%js = S754_zero t)
      by (destruct sc, ss; cbn; eauto).
    destruct Hu as [t ->], Hu' as [t' ->].
    assert (Hq : ((S754_zero t / d)%js = NaN /\ (S754_zero t' / d)%js = NaN)
                 \/ exists t1 t1', (S754_zero t / d)%js = S754_zero t1
                                   /\ (S754_zero t' / d)%js = S754_zero t1').
    { destruct d as [sd|sd| |sd md ed]; cbn; eauto. }
    destruct Hq as [[-> ->] | (t1 & t1' & -> & ->)].
    + rewrite round_NaN. cbn. eauto.
    + destruct (round_zeros t1 t1' (Quadratic.precision p))
        as [[-> ->] | (u & u' & -> & ->)].
      * cbn. eauto.
      * match goal with |- context [if ?c then _ else _] => destruct c end;
          do 2 eexists; (split; [reflexivity|]); right; split; apply Hzero.
  - (* an infinite square root *)
    replace (- S754_zero sc + S754_infinity ss)%js with (S754_infinity ss)
      by now destruct sc.
    replace (- S754_zero sc - S754_infinity ss)%js with (- S754_infinity ss)%js
      by now destruct sc.
    rewrite div_neg, round_neg.
    match goal with |- context [if ?c then _ else _] => destruct c end;
      do 2 eexists; (split; [reflexivity|]); left;
      [reflexivity | now rewrite neg_involutive].
  - (* NaN *)
    replace (- S754_zero sc + S754_nan)%js with NaN by now destruct sc.
    replace (- S754_zero sc - S754_nan)%js with NaN by now destruct sc.
    change (NaN / d)%js with NaN. rewrite round_NaN. cbn. eauto.
  - (* a finite square root *)
    replace (- S754_zero sc + S754_finite ss ms es)%js with (S754_finite ss ms es)
      by now destruct sc.
    replace (- S754_zero sc - S754_finite ss ms es)%js with (- S754_finite ss ms es)%js
      by now destruct sc.
    rewrite div_neg, round_neg.
    match goal with |- context [if ?c then _ else _] => destruct c end;
      do 2 eexists; (split; [reflexivity|]); left;
      [reflexivity | now rewrite neg_involutive].
Qed.

Lemma solveInverse_even_witness :
  exists a b,
    Quadratic.solveInverse (Quadratic.make (ofZ (-4)) #0 #1 PRECISION) #0 = [a; b]
    /\ (a = (- b)%js \/ ((a === zero)%js = true /\ (b === zero)%js = true)).
Proof.
  apply (solveInverse_even (Quadratic.make (ofZ (-4)) #0 #1 PRECISION) #0); reflexivity.
Defined.

(** ** Rows, columns and minors of a 4x4 matrix *)

Ltac coordinate i :=
  repeat (destruct i as [|i]; [|try lia]); try lia.

Ltac stored_fields H :=
  let go i j := (let Hij := fresh "Hij" in
                 pose proof (H i j ltac:(lia) ltac:(lia)) as Hij; cbn in Hij) in
  go 0%nat 0%nat; go 0%nat 1%nat; go 0%nat 2%nat; go 0%nat 3%nat;
  go 1%nat 0%nat; go 1%nat 1%nat; go 1%nat 2%nat; go 1%nat 3%nat;
  go 2%nat 0%nat; go 2%nat 1%nat; go 2%nat 2%nat; go 2%nat 3%nat;
  go 3%nat 0%nat; go 3%nat 1%nat; go 3%nat 2%nat; go 3%nat 3%nat.

Ltac stored :=
  repeat match goal with
  | Hx : round ?x ?p = ?x |- context [round ?x ?p] => rewrite Hx
  end.

(** X6.  The columns that [toColumns] returns are the transpose of the
    rows that [toRows] returns: component [i] of column [j] is
    component [j] of row [i], and all eight vectors carry the precision
    of the matrix. *)
Theorem toColumns_transposes_toRows (m : Matrix4x4.Matrix4x4) (i j : nat) :
  (i < 4)%nat -> (j < 4)%nat ->
  exists r c x,
    Matrix4x4.toRows m !! i = Some r /\ Matrix4x4.toColumns m !! j = Some c
    /\ Vector4.components r !! j = Some x /\ Vector4.components c !! i = Some x
    /\ Vector4.precision r = Matrix4x4.precision m
    /\ Vector4.precision c = Matrix4x4.precision m.
Proof.
  intros Hi Hj. coordinate i; coordinate j;
    (do 3 eexists; repeat split; reflexivity).
Qed.

Lemma toColumns_transposes_toRows_witness :
  exists r c x,
    Matrix4x4.toRows (Matrix4x4.make #1 #2 #3 #4 #5 #6 #7 #8 #9 #10 #11 #12 #13 #14 #15 #16 2) !! 1%nat
      = Some r
    /\ Matrix4x4.toColumns (Matrix4x4.make #1 #2 #3 #4 #5 #6 #7 #8 #9 #10 #11 #12 #13 #14 #15 #16 2) !! 2%nat
      = Some c
    /\ Vector4.components r !! 2%nat = Some x /\ Vector4.components c !! 1%nat = Some x
    /\ Vector4.precision r = 2 /\ Vector4.precision c = 2.
Proof.
  apply (toColumns_transposes_toRows
           (Matrix4x4.make #1 #2 #3 #4 #5 #6 #7 #8 #9 #10 #11 #12 #13 #14 #15 #16 2) 1 2); lia.
Defined.

(** X7.  Handing the rows of a matrix to [fromColumns] transposes it:
    for a matrix whose entries are stored at its precision, entry
    [(i, j)] of [fromColumns(...toRows(m))] is entry [(j, i)] of [m],
    and the precision is kept. *)
Theorem fromColumns_toRows_transposes (m : Matrix4x4.Matrix4x4) (i j : nat) :
  Entry.storedAt (Matrix4x4.precision m) m -> (i < 4)%nat -> (j < 4)%nat ->
  exists r0 r1 r2 r3,
    Matrix4x4.toRows m = [r0; r1; r2; r3]
    /\ Entry.of4 (Matrix4x4.fromColumns r0 r1 r2 r3 None) i j = Entry.of4 m j i
    /\ Matrix4x4.precision (Matrix4x4.fromColumns r0 r1 r2 r3 None)
       = Matrix4x4.precision m.
Proof.
  intros H Hi Hj. stored_fields H.
  do 4 eexists. split; [reflexivity|]. split.
  - coordinate i; coordinate j; cbn;
      repeat match goal with
      | |- context [Z.min ?p ?p] => rewrite (Z.min_id p)
      end;
      stored; reflexivity.
  - cbn. lia.
Qed.

Lemma fromColumns_toRows_transposes_witness :
  exists r0 r1 r2 r3,
    Matrix4x4.toRows Samples.coarseMatrix = [r0; r1; r2; r3]
    /\ Entry.of4 (Matrix4x4.fromColumns r0 r1 r2 r3 None) 0 1 = ofZ 5
    /\ Matrix4x4.precision (Matrix4x4.fromColumns r0 r1 r2 r3 None) = 2.
Proof.
  apply (fromColumns_toRows_transposes Samples.coarseMatrix 0 1); try lia.
  intros i j Hi Hj; coordinate i; coordinate j; vm_compute; reflexivity.
Defined.

(** X8.  For a matrix whose entries are stored at its precision, entry
    [(i, j)] of [minor(m, row, column)] is the entry of [m] in row
    [skip column j] and column [skip row i]: the function removes the
    column numbered [row] and the row numbered [column], and lays the
    rest out transposed. *)
Theorem minor_entries (m : Matrix4x4.Matrix4x4) (row column i j : nat) :
  (row < 4)%nat -> (column < 4)%nat -> (i < 3)%nat -> (j < 3)%nat ->
  Entry.storedAt (Matrix4x4.precision m) m ->
  Entry.of3 (Matrix4x4.minor m row column) i j
  = Entry.of4 m (Entry.skip column j) (Entry.skip row i)
  /\ Matrix3x3.precision (Matrix4x4.minor m row column) = Matrix4x4.precision m.
Proof.
  intros Hrow Hcolumn Hi Hj H. stored_fields H.
  split; [|reflexivity].
  coordinate row; coordinate column; coordinate i; coordinate j;
    cbn; stored; reflexivity.
Qed.

Lemma minor_entries_witness :
  Entry.of3 (Matrix4x4.minor Samples.matrix 1 2) 0 1 = ofZ 5
  /\ Matrix3x3.precision (Matrix4x4.minor Samples.matrix 1 2) = PRECISION.
Proof.
  apply (minor_entries Samples.matrix 1 2 0 1); try lia.
  intros i j _ _. reflexivity.
Defined.

Lemma vectorStoredAt_components (precision : Z) (v : Vector4.Vector4) :
  Entry.vectorStoredAt precision v ->
  round (Vector4.v0 v) precision = Vector4.v0 v
  /\ round (Vector4.v1 v) precision = Vector4.v1 v
  /\ round (Vector4.v2 v) precision = Vector4.v2 v
  /\ round (Vector4.v3 v) precision = Vector4.v3 v.
Proof.
  unfold Entry.vectorStoredAt, Vector4.components. intros H.
  repeat (apply Forall_cons in H as [? H]). tauto.
Qed.

(** X9.  [setRow(m, row, v)] for a coordinate [row] carries the lesser
    of the precisions of [m] and [v].  Reading the rows back gives [v]
    at [row] when the components of [v] are stored at that precision,
    and the rows of [m] elsewhere when the entries of [m] are stored at
    their own and at that precision. *)
Theorem setRow_toRows (m : Matrix4x4.Matrix4x4) (row : nat) (v : Vector4.Vector4) :
  (row < 4)%nat ->
  let p := Z.min (Matrix4x4.precision m) (Vector4.precision v) in
  Matrix4x4.precision (Matrix4x4.setRow m row v) = p
  /\ (Entry.vectorStoredAt p v ->
      Matrix4x4.toRows (Matrix4x4.setRow m row v) !! row
      = Some (Vector4.Build (Vector4.v0 v) (Vector4.v1 v) (Vector4.v2 v) (Vector4.v3 v) p))
  /\ (Entry.storedAt (Matrix4x4.precision m) m -> Entry.storedAt p m ->
      forall k, (k < 4)%nat -> k <> row ->
      Matrix4x4.toRows (Matrix4x4.setRow m row v) !! k
      = Some (Vector4.Build (Entry.of4 m k 0) (Entry.of4 m k 1)
                            (Entry.of4 m k 2) (Entry.of4 m k 3) p)).
Proof.
  intros Hrow p. subst p.
  remember (Z.min (Matrix4x4.precision m) (Vector4.precision v)) as p eqn:Ep.
  assert (Hp : Matrix4x4.precision (Matrix4x4.setRow m row v) = p).
  { subst p. coordinate row; cbn; lia. }
  split; [exact Hp|]. split.
  - intros Hv. apply vectorStoredAt_components in Hv as (H0 & H1 & H2 & H3).
    unfold Matrix4x4.toRows at 1. rewrite Hp.
    coordinate row; cbn [lookup list_lookup]; unfold Vector4.vector4; do 2 f_equal;
      cbn;
      match goal with |- round (round _ ?q) _ = _ => replace q with p by lia end;
      congruence.
  - intros Hm Hm' k Hk Hne. stored_fields Hm. stored_fields Hm'.
    unfold Matrix4x4.toRows at 1. rewrite Hp.
    coordinate row; coordinate k; try congruence;
      cbn [lookup list_lookup]; unfold Vector4.vector4; do 2 f_equal;
      cbn;
      match goal with |- round (round _ ?q) _ = _ => replace q with p by lia end;
      stored; reflexivity.
Qed.

Lemma coarseMatrix_storedAt (precision : Z) :
  precision = 0 \/ precision = 2 -> Entry.storedAt precision Samples.coarseMatrix.
Proof.
  intros [-> | ->] i j Hi Hj; coordinate i; coordinate j; vm_compute; reflexivity.
Qed.

Lemma setRow_toRows_witness :
  let v := Vector4.vector4 #7 #7 #7 #7 0 in
  Matrix4x4.precision (Matrix4x4.setRow Samples.coarseMatrix 1 v) = 0
  /\ Matrix4x4.toRows (Matrix4x4.setRow Samples.coarseMatrix 1 v) !! 1%nat = Some v
  /\ Matrix4x4.toRows (Matrix4x4.setRow Samples.coarseMatrix 1 v) !! 2%nat
     = Some (Vector4.Build (ofZ 9) (ofZ 10) (ofZ 11) (ofZ 12) 0).
Proof.
  intros v.
  destruct (setRow_toRows Samples.coarseMatrix 1 v ltac:(lia)) as (H1 & H2 & H3).
  split; [exact H1|]. split.
  - apply H2. repeat constructor; vm_compute; reflexivity.
  - apply (H3 (coarseMatrix_storedAt 2 ltac:(lia)) (coarseMatrix_storedAt 0 ltac:(lia)) 2%nat);
      lia.
Defined.

(** X10.  [setColumn(m, column, v)] for a coordinate [column] carries the
    lesser of the precisions of [m] and [v].  Reading the columns back
    gives [v] at [column] when the components of [v] are stored at that
    precision, and the columns of [m] elsewhere when the entries of [m]
    are stored at their own and at that precision. *)
Theorem setColumn_toColumns (m : Matrix4x4.Matrix4x4) (column : nat) (v : Vector4.Vector4) :
  (column < 4)%nat ->
  let p := Z.min (Matrix4x4.precision m) (Vector4.precision v) in
  Matrix4x4.precision (Matrix4x4.setColumn m column v) = p
  /\ (Entry.vectorStoredAt p v ->
      Matrix4x4.toColumns (Matrix4x4.setColumn m column v) !! column
      = Some (Vector4.Build (Vector4.v0 v) (Vector4.v1 v) (Vector4.v2 v) (Vector4.v3 v) p))
  /\ (Entry.storedAt (Matrix4x4.precision m) m -> Entry.storedAt p m ->
      forall k, (k < 4)%nat -> k <> column ->
      Matrix4x4.toColumns (Matrix4x4.setColumn m column v) !! k
      = Some (Vector4.Build (Entry.of4 m 0 k) (Entry.of4 m 1 k)
                            (Entry.of4 m 2 k) (Entry.of4 m 3 k) p)).
Proof.
  intros Hcolumn p. subst p.
  remember (Z.min (Matrix4x4.precision m) (Vector4.precision v)) as p eqn:Ep.
  assert (Hp : Matrix4x4.precision (Matrix4x4.setColumn m column v) = p).
  { subst p. coordinate column; cbn; lia. }
  split; [exact Hp|]. split.
  - intros Hv. apply vectorStoredAt_components in Hv as (H0 & H1 & H2 & H3).
    unfold Matrix4x4.toColumns at 1. rewrite Hp.
    coordinate column; cbn [lookup list_lookup]; unfold Vector4.vector4; do 2 f_equal;
      cbn;
      match goal with |- round (round _ ?q) _ = _ => replace q with p by lia end;
      congruence.
  - intros Hm Hm' k Hk Hne. stored_fields Hm. stored_fields Hm'.
    unfold Matrix4x4.toColumns at 1. rewrite Hp.
    coordinate column; coordinate k; try congruence;
      cbn [lookup list_lookup]; unfold Vector4.vector4; do 2 f_equal;
      cbn;
      match goal with |- round (round _ ?q) _ = _ => replace q with p by lia end;
      stored; reflexivity.
Qed.

Lemma setColumn_toColumns_witness :
  let v := Vector4.vector4 #7 #7 #7 #7 0 in
  Matrix4x4.precision (Matrix4x4.setColumn Samples.coarseMatrix 3 v) = 0
  /\ Matrix4x4.toColumns (Matrix4x4.setColumn Samples.coarseMatrix 3 v) !! 3%nat = Some v
  /\ Matrix4x4.toColumns (Matrix4x4.setColumn Samples.coarseMatrix 3 v) !! 0%nat
     = Some (Vector4.Build (ofZ 1) (ofZ 5) (ofZ 9) (ofZ 13) 0).
Proof.
  intros v.
  destruct (setColumn_toColumns Samples.coarseMatrix 3 v ltac:(lia)) as (H1 & H2 & H3).
  split; [exact H1|]. split.
  - apply H2. repeat constructor; vm_compute; reflexivity.
  - apply (H3 (coarseMatrix_storedAt 2 ltac:(lia)) (coarseMatrix_storedAt 0 ltac:(lia)) 0%nat);
      lia.
Defined.

(** ** What [determinant] reads *)

(** X11.  [determinant(m)] never reads the entries [m10], [m20] and
    [m30]: the entries of the first row are multiplied by minors that
    all leave out the first column, so two matrices that differ in
    these three entries only have the same determinant. *)
Theorem determinant_ignores_first_column
    (a00 a01 a02 a03 a11 a12 a13 a21 a22 a23 a31 a32 a33 : number)
    (x y z x' y' z' : number) (precision : Z) :
  Matrix4x4.determinant
    (Matrix4x4.make a00 a01 a02 a03 x a11 a12 a13 y a21 a22 a23 z a31 a32 a33 precision)
  = Matrix4x4.determinant
      (Matrix4x4.make a00 a01 a02 a03 x' a11 a12 a13 y' a21 a22 a23 z' a31 a32 a33 precision).
Proof.
  unfold Matrix4x4.determinant.
  assert (Hminor : forall column,
            Matrix4x4.minor
              (Matrix4x4.make a00 a01 a02 a03 x a11 a12 a13 y a21 a22 a23
                              z a31 a32 a33 precision) 0 column
            = Matrix4x4.minor
                (Matrix4x4.make a00 a01 a02 a03 x' a11 a12 a13 y' a21 a22 a23
                                z' a31 a32 a33 precision) 0 column)
    by reflexivity.
  rewrite !Hminor. reflexivity.
Qed.

(** ** The failure of [solveSystem] *)

Lemma solveSystem_only_failure (m : Matrix4x4.Matrix4x4) (v : Vector4.Vector4) (f : failure) :
  Matrix4x4.solveSystem m v = Err f -> f = SingularMatrix.
Proof.
  unfold Matrix4x4.solveSystem.
  destruct (isFinite (#1 / Matrix4x4.determinant m)%js); simpl; congruence.
Qed.

(** X12.  [solveSystem(m, v)] throws the singular-matrix failure
    whenever [determinant(m)] is zero (of either sign) or NaN, whatever
    [v] is; it throws nothing else. *)
Theorem solveSystem_singular (m : Matrix4x4.Matrix4x4) (v : Vector4.Vector4) :
  (Matrix4x4.determinant m === zero)%js = true \/ isNaN (Matrix4x4.determinant m) = true ->
  Matrix4x4.solveSystem m v = Err SingularMatrix
  /\ forall f, Matrix4x4.solveSystem m v = Err f -> f = SingularMatrix.
Proof.
  intros H. split; [|apply solveSystem_only_failure].
  destruct H as [H | H]; [now apply solveSystem_zero_determinant|].
  apply solveSystem_failure. now destruct (Matrix4x4.determinant m).
Qed.

Lemma solveSystem_singular_witness :
  let m := Matrix4x4.make #0 #0 #0 #0 #1 #2 #3 #4 #0 #0 #1 #0 #0 #0 #0 #1 PRECISION in
  let v := Vector4.vector4 #1 #0 #0 #0 PRECISION in
  Matrix4x4.solveSystem m v = Err SingularMatrix
  /\ forall f, Matrix4x4.solveSystem m v = Err f -> f = SingularMatrix.
Proof.
  intros m v. apply (solveSystem_singular m v). left. vm_compute. reflexivity.
Defined.

(** X13.  A determinant that is Infinity or -Infinity passes the check
    of [solveSystem]: its inverse is a zero, which is finite, and the
    result is a vector each of whose components is a zero or NaN. *)
Theorem solveSystem_infinite_determinant (m : Matrix4x4.Matrix4x4) (v : Vector4.Vector4)
    (s : bool) :
  Matrix4x4.determinant m = S754_infinity s ->
  exists x, Matrix4x4.solveSystem m v = Ok x
    /\ Forall (fun c => (c === zero)%js = true \/ isNaN c = true) (Vector4.components x).
Proof.
  intros H. unfold Matrix4x4.solveSystem. rewrite H.
  change (#1 / S754_infinity s)%js with (S754_zero s).
  cbn [isFinite invariant bind]. eexists. split; [reflexivity|].
  unfold Vector4.vector4, Vector4.components. cbn [Vector4.v0 Vector4.v1 Vector4.v2 Vector4.v3].
  change (round ?x PRECISION) with x.
  assert (Hz : forall d, ((d * S754_zero s)%js === zero)%js = true
                         \/ isNaN (d * S754_zero s)%js = true).
  { intros [ | | | ]; cbn; auto. }
  repeat (apply Forall_cons_2; [apply Hz|]). apply Forall_nil_2.
Qed.

Lemma solveSystem_infinite_determinant_witness :
  let big := ofZ (2 ^ 400) in
  let m := Matrix4x4.make big #0 #0 #0 #0 big #0 #0 #0 #0 big #0 #0 #0 #0 #1 PRECISION in
  let v := Vector4.vector4 #1 #1 #1 #1 PRECISION in
  exists x, Matrix4x4.solveSystem m v = Ok x
    /\ Forall (fun c => (c === zero)%js = true \/ isNaN c = true) (Vector4.components x).
Proof.
  intros big m v. apply (solveSystem_infinite_determinant m v false).
  vm_compute. reflexivity.
Defined.

(** X14.  For a matrix whose entries are stored at its precision,
    building a matrix from the rows, or from the columns, that [toRows]
    and [toColumns] return gives the matrix back. *)
Theorem fromRows_toRows (m : Matrix4x4.Matrix4x4) :
  Entry.storedAt (Matrix4x4.precision m) m ->
  (exists r0 r1 r2 r3,
     Matrix4x4.toRows m = [r0; r1; r2; r3]
     /\ Matrix4x4.fromRows r0 r1 r2 r3 None = m)
  /\ (exists c0 c1 c2 c3,
        Matrix4x4.toColumns m = [c0; c1; c2; c3]
        /\ Matrix4x4.fromColumns c0 c1 c2 c3 None = m).
Proof.
  intros H. stored_fields H.
  split; do 4 eexists; (split; [reflexivity|]);
    destruct m; unfold Matrix4x4.fromRows, Matrix4x4.fromColumns, Matrix4x4.Matrix4x4Impl;
    cbn in *;
    repeat match goal with
    | |- context [Z.min ?p ?p] => rewrite (Z.min_id p)
    end;
    stored; reflexivity.
Qed.

Lemma fromRows_toRows_witness :
  (exists r0 r1 r2 r3,
     Matrix4x4.toRows Samples.coarseMatrix = [r0; r1; r2; r3]
     /\ Matrix4x4.fromRows r0 r1 r2 r3 None = Samples.coarseMatrix)
  /\ (exists c0 c1 c2 c3,
        Matrix4x4.toColumns Samples.coarseMatrix = [c0; c1; c2; c3]
        /\ Matrix4x4.fromColumns c0 c1 c2 c3 None = Samples.coarseMatrix).
Proof.
  apply (fromRows_toRows Samples.coarseMatrix). apply coarseMatrix_storedAt. right. reflexivity.
Defined.

(** ** The construction of a curve *)

Lemma keysOf_spec (point : Curve.Point) :
  NoDup (CurveFacade.keysOf point)
  /\ forall key, key ∈ CurveFacade.keysOf point <-> is_Some (point !! key).
Proof.
  unfold CurveFacade.keysOf. split; [apply NoDup_fst_map_to_list|].
  intros key. rewrite list_elem_of_fmap. split.
  - intros ([k x] & -> & Hin). apply elem_of_map_to_list in Hin. now exists x.
  - intros [x Hx]. exists (key, x). split; [reflexivity|]. now apply elem_of_map_to_list.
Qed.

Lemma initAxisPoints_lookup (keys : list string) (key : string) :
  CurveFacade.initAxisPoints keys !! key = if decide (key ∈ keys) then Some [] else None.
Proof.
  unfold CurveFacade.initAxisPoints.
  assert (H : forall acc : gmap string (list CurveFacade.Coordinate),
             foldl (fun axisPoints key => <[key := []]> axisPoints) acc keys !! key
             = if decide (key ∈ keys) then Some [] else acc !! key).
  { induction keys as [|k keys IH]; intros acc; simpl.
    - destruct (decide (key ∈ [])) as [Hin|]; [now apply elem_of_nil in Hin|reflexivity].
    - rewrite IH. destruct (decide (key ∈ keys)) as [Hin|Hin].
      + rewrite decide_True by now right. reflexivity.
      + destruct (decide (key = k)) as [->|Hne].
        * rewrite decide_True by now left. apply lookup_insert_eq.
        * rewrite decide_False by (intros [|]%elem_of_cons; contradiction).
          now apply lookup_insert_ne. }
  rewrite H. destruct (decide (key ∈ keys)); [reflexivity|apply lookup_empty].
Qed.

Lemma pushPoint_spec (point : Curve.Point) (keys : list string)
    (axisPoints : gmap string (list CurveFacade.Coordinate)) :
  NoDup keys -> CurveFacade.covers keys axisPoints ->
  match CurveFacade.pushPoint point keys axisPoints with
  | Err f =>
      (f = TypeError /\ is_Some (point !! "toString"))
      \/ (f = InvalidInput /\ Exists (fun key => CurveFacade.inOperator key point = false) keys)
  | Ok axisPoints' =>
      (keys = [] \/ point !! "toString" = None)
      /\ Forall (fun key => CurveFacade.inOperator key point = true) keys
      /\ forall key,
           axisPoints' !! key =
           if decide (key ∈ keys)
           then xs ← axisPoints !! key; Some (xs ++ [CurveFacade.getProperty key point])
           else axisPoints !! key
  end.
Proof.
  revert axisPoints. induction keys as [|k keys IH]; intros axisPoints Hnd Hc; simpl.
  - split; [now left|]. split; [constructor|]. intros key.
    destruct (decide (key ∈ [])) as [Hin|]; [now apply elem_of_nil in Hin|reflexivity].
  - apply NoDup_cons in Hnd as [Hk Hnd]. unfold CurveFacade.templateLiteral.
    destruct (point !! "toString") as [ts|] eqn:Hts.
    { rewrite bool_decide_eq_true_2 by eauto. cbn [bind]. left. eauto. }
    rewrite bool_decide_eq_false_2 by (intros [? [=]]). cbn [bind].
    destruct (CurveFacade.inOperator k point) eqn:Hin; cbn [invariant bind];
      [|right; split; [reflexivity|now left]].
    destruct (Hc k ltac:(left)) as [xs Hxs]. rewrite Hxs.
    specialize (IH (<[k := xs ++ [CurveFacade.getProperty k point]]> axisPoints) Hnd).
    destruct (CurveFacade.pushPoint point keys
                (<[k := xs ++ [CurveFacade.getProperty k point]]> axisPoints))
      as [axisPoints'|f].
    + destruct IH as (_ & Hall & Hlookup).
      { intros key Hkey. apply lookup_insert_is_Some'. right. apply Hc. now right. }
      split; [now right|]. split; [now constructor|].
      intros key. rewrite Hlookup. destruct (decide (key = k)) as [->|Hne].
      * rewrite decide_False by exact Hk. rewrite decide_True by now left.
        rewrite lookup_insert_eq, Hxs. reflexivity.
      * rewrite lookup_insert_ne by congruence.
        destruct (decide (key ∈ keys)) as [Hkey|Hkey].
        -- rewrite decide_True by now right. reflexivity.
        -- rewrite decide_False by (intros [|]%elem_of_cons; contradiction). reflexivity.
    + destruct IH as [[-> [? [=]]] | [-> Hex]].
      { intros key Hkey. apply lookup_insert_is_Some'. right. apply Hc. now right. }
      right. split; [reflexivity|now right].
Qed.

Lemma collectPoints_spec (points : list Curve.Point) (keys : list string)
    (axisPoints : gmap string (list CurveFacade.Coordinate)) :
  NoDup keys -> CurveFacade.covers keys axisPoints ->
  match CurveFacade.collectPoints points keys axisPoints with
  | Err f =>
      (f = TypeError /\ Exists (fun point : Curve.Point => is_Some (point !! "toString")) points)
      \/ (f = InvalidInput
          /\ Exists (fun point => Exists (fun key => CurveFacade.inOperator key point = false)
                                         keys) points)
  | Ok axisPoints' =>
      Forall (fun point : Curve.Point =>
                (keys = [] \/ point !! "toString" = None)
                /\ Forall (fun key => CurveFacade.inOperator key point = true) keys) points
      /\ forall key, key ∈ keys ->
           exists xs, axisPoints !! key = Some xs
             /\ axisPoints' !! key
                = Some (xs ++ (CurveFacade.getProperty key <$> points))
  end.
Proof.
  revert axisPoints. induction points as [|point points IH]; intros axisPoints Hnd Hc; simpl.
  - split; [constructor|]. intros key Hin. destruct (Hc key Hin) as [xs Hxs].
    exists xs. now rewrite app_nil_r.
  - pose proof (pushPoint_spec point keys axisPoints Hnd Hc) as Hpush.
    destruct (CurveFacade.pushPoint point keys axisPoints) as [axisPoints1|f]; simpl.
    + destruct Hpush as (Hprint & Hall & Hlookup).
      assert (Hc1 : CurveFacade.covers keys axisPoints1).
      { intros key Hin. rewrite Hlookup, decide_True by exact Hin.
        destruct (Hc key Hin) as [xs ->]. now eexists. }
      specialize (IH axisPoints1 Hnd Hc1).
      destruct (CurveFacade.collectPoints points keys axisPoints1) as [axisPoints'|f].
      * destruct IH as [Hall' Hres]. split; [now constructor|].
        intros key Hin. destruct (Hres key Hin) as (xs1 & H1 & Hfinal).
        rewrite Hlookup, decide_True in H1 by exact Hin.
        destruct (axisPoints !! key) as [xs|]; [|discriminate]. simpl in H1.
        injection H1 as <-. exists xs. split; [reflexivity|].
        rewrite Hfinal, <- app_assoc. reflexivity.
      * destruct IH as [[-> Hex] | [-> Hex]]; [left|right]; (split; [reflexivity|now right]).
    + destruct Hpush as [[-> Hex] | [-> Hex]]; [left|right]; (split; [reflexivity|now left]).
Qed.

Lemma buildAxes_spec (makeAxis : list CurveFacade.Coordinate -> result Curve.CurveAxis)
    (axisPoints : gmap string (list CurveFacade.Coordinate)) (keys : list string)
    (axes : gmap string Curve.CurveAxis) :
  NoDup keys -> CurveFacade.covers keys axisPoints ->
  match CurveFacade.buildAxes makeAxis axisPoints keys axes with
  | Err f => exists key xs, key ∈ keys /\ axisPoints !! key = Some xs /\ makeAxis xs = Err f
  | Ok axes' =>
      (forall key, key ∈ keys ->
         exists xs a, axisPoints !! key = Some xs /\ makeAxis xs = Ok a
                      /\ axes' !! key = Some a)
      /\ forall key, key ∉ keys -> axes' !! key = axes !! key
  end.
Proof.
  revert axes. induction keys as [|k keys IH]; intros axes Hnd Hc; simpl.
  - split; [|reflexivity]. intros key Hin. now apply elem_of_nil in Hin.
  - apply NoDup_cons in Hnd as [Hk Hnd].
    destruct (Hc k ltac:(left)) as [xs Hxs]. rewrite Hxs.
    assert (Hc' : CurveFacade.covers keys axisPoints) by (intros key Hin; apply Hc; now right).
    destruct (makeAxis xs) as [a|f] eqn:Ha; simpl.
    + specialize (IH (<[k := a]> axes) Hnd Hc').
      destruct (CurveFacade.buildAxes makeAxis axisPoints keys (<[k := a]> axes))
        as [axes'|f].
      * destruct IH as [Hin Hout]. split.
        -- intros key [->|Hkey]%elem_of_cons; [|now apply Hin].
           exists xs, a. rewrite Hout by exact Hk. now rewrite lookup_insert_eq.
        -- intros key Hkey. rewrite Hout by (intros ?; apply Hkey; now right).
           apply lookup_insert_ne. intros ->. apply Hkey. now left.
      * destruct IH as (key & ys & Hin & Hys & Hf). exists key, ys.
        split; [now right|]. now split.
    + exists k, xs. split; [now left|]. now split.
Qed.

Lemma solveAll_spec (c : Curve.Curve) (rounded : number) (precision : Z)
    (keys : list string) (position : Curve.Point) :
  (forall key, key ∈ keys -> is_Some (Curve.axes c !! key)) ->
  exists position',
    CurveFacade.solveAll c rounded precision keys position = Ok position'
    /\ forall key,
         position' !! key =
         if decide (key ∈ keys)
         then a ← Curve.axes c !! key;
              Some (round (Curve.solvePosition a rounded) precision)
         else position !! key.
Proof.
  revert position. induction keys as [|k keys IH]; intros position Hkeys; simpl.
  - exists position. split; [reflexivity|]. intros key.
    destruct (decide (key ∈ [])) as [Hin|]; [now apply elem_of_nil in Hin|reflexivity].
  - destruct (Hkeys k ltac:(left)) as [a Ha]. unfold Curve.axisOf. rewrite Ha. simpl.
    destruct (IH (<[k := round (Curve.solvePosition a rounded) precision]> position))
      as (position' & Hp & Hlookup).
    { intros key Hin. apply Hkeys. now right. }
    exists position'. split; [exact Hp|]. intros key. rewrite Hlookup.
    destruct (decide (key ∈ keys)) as [Hin|Hin].
    + rewrite decide_True by now right. reflexivity.
    + destruct (decide (key = k)) as [->|Hne].
      * rewrite decide_True by now left. rewrite lookup_insert_eq, Ha. reflexivity.
      * rewrite decide_False by (intros [|]%elem_of_cons; contradiction).
        now apply lookup_insert_ne.
Qed.

Lemma createCurve_validates (point0 : Curve.Point) (rest : list Curve.Point) :
  let keys := CurveFacade.keysOf point0 in
  match CurveFacade.collectPoints (point0 :: rest) keys (CurveFacade.initAxisPoints keys) with
  | Err f =>
      (f = TypeError
       /\ Exists (fun point : Curve.Point => is_Some (point !! "toString")) (point0 :: rest))
      \/ (f = InvalidInput
          /\ Exists (fun point => Exists (fun key => CurveFacade.inOperator key point = false)
                                         keys) (point0 :: rest))
  | Ok axisPoints' =>
      Forall (fun point : Curve.Point =>
                (keys = [] \/ point !! "toString" = None)
                /\ Forall (fun key => CurveFacade.inOperator key point = true) keys)
             (point0 :: rest)
      /\ CurveFacade.covers keys axisPoints'
      /\ forall key, key ∈ keys ->
           axisPoints' !! key = Some (CurveFacade.getProperty key <$> point0 :: rest)
  end.
Proof.
  intros keys. destruct (keysOf_spec point0) as [Hnd _]. fold keys in Hnd.
  assert (Hc : CurveFacade.covers keys (CurveFacade.initAxisPoints keys)).
  { intros key Hin. rewrite initAxisPoints_lookup, decide_True by exact Hin. now eexists. }
  pose proof (collectPoints_spec (point0 :: rest) keys _ Hnd Hc) as H.
  destruct (CurveFacade.collectPoints (point0 :: rest) keys (CurveFacade.initAxisPoints keys))
    as [axisPoints'|f]; [|exact H].
  destruct H as [Hall Hres]. split; [exact Hall|].
  assert (Hres' : forall key, key ∈ keys ->
            axisPoints' !! key = Some (CurveFacade.getProperty key <$> point0 :: rest)).
  { intros key Hin. destruct (Hres key Hin) as (xs & Hxs & Hfinal).
    rewrite initAxisPoints_lookup, decide_True in Hxs by exact Hin.
    injection Hxs as <-. exact Hfinal. }
  split; [|exact Hres'].
  intros key Hin. rewrite (Hres' key Hin). now eexists.
Qed.

(** A key is missing from a point when the point has no entry for it
    and [Object.prototype] has no member of that name. *)
Lemma inOperator_false (key : string) (point : Curve.Point) :
  CurveFacade.inOperator key point = false <->
  point !! key = None /\ key ∉ CurveFacade.objectPrototypeKeys.
Proof.
  unfold CurveFacade.inOperator. rewrite orb_false_iff, !bool_decide_eq_false.
  rewrite <- eq_None_not_Some. reflexivity.
Qed.

Lemma pushPoint_unprintable (point : Curve.Point) (keys : list string)
    (axisPoints : gmap string (list CurveFacade.Coordinate)) :
  is_Some (point !! "toString") -> keys <> [] ->
  CurveFacade.pushPoint point keys axisPoints = Err TypeError.
Proof.
  intros Hts Hkeys. destruct keys as [|key keys]; [contradiction|].
  cbn [CurveFacade.pushPoint]. unfold CurveFacade.templateLiteral.
  now rewrite bool_decide_eq_true_2.
Qed.

(** X15.  [createCurve] throws a TypeError on an empty array of points,
    and also when the first point has an entry named [toString]: the
    message of the invariant is built for every point and key, and such
    a point cannot be converted to a string.  When no point has such an
    entry and some point lacks a key of the first point, a key that
    [Object.prototype] has no member for, it throws the missing-axis
    failure.  All this happens before any axis is built, whatever the
    spline and the length lookup would do. *)
Theorem createCurve_rejects
    (makeAxis : list CurveFacade.Coordinate -> result Curve.CurveAxis)
    (createLengthLookup : (number -> Z -> result Curve.Point) -> result (number -> number))
    (point0 : Curve.Point) (rest : list Curve.Point) :
  CurveFacade.createCurve makeAxis createLengthLookup [] = Err TypeError
  /\ (is_Some (point0 !! "toString") ->
      CurveFacade.createCurve makeAxis createLengthLookup (point0 :: rest) = Err TypeError)
  /\ (forall (k : nat) (point : Curve.Point) (key : string),
        (forall q : Curve.Point, q ∈ point0 :: rest -> q !! "toString" = None) ->
        rest !! k = Some point -> is_Some (point0 !! key) ->
        point !! key = None -> key ∉ CurveFacade.objectPrototypeKeys ->
        CurveFacade.createCurve makeAxis createLengthLookup (point0 :: rest)
        = Err InvalidInput).
Proof.
  split; [reflexivity|].
  unfold CurveFacade.createCurve. cbn [CurveFacade.firstPoint bind].
  destruct (keysOf_spec point0) as [_ Hkeys].
  split.
  - intros Hts. cbn [CurveFacade.collectPoints].
    rewrite pushPoint_unprintable; [reflexivity|exact Hts|].
    intros Hnil. apply Hkeys in Hts. rewrite Hnil in Hts. now apply elem_of_nil in Hts.
  - intros k point key Hprint Hk H0 Hmissing Hproto.
    pose proof (createCurve_validates point0 rest) as H. cbv zeta in H.
    destruct (CurveFacade.collectPoints (point0 :: rest) (CurveFacade.keysOf point0)
                (CurveFacade.initAxisPoints (CurveFacade.keysOf point0))) as [axisPoints'|f].
    + exfalso. destruct H as [Hall _]. rewrite Forall_forall in Hall.
      destruct (Hall point) as [_ Hin]; [right; exact (list_elem_of_lookup_2 _ _ _ Hk)|].
      rewrite Forall_forall in Hin. specialize (Hin key (proj2 (Hkeys key) H0)).
      assert (Hno : CurveFacade.inOperator key point = false)
        by now apply inOperator_false.
      congruence.
    + destruct H as [[-> Hex] | [-> _]]; [|reflexivity].
      exfalso. apply Exists_exists in Hex as (q & Hq & Hts).
      rewrite (Hprint q Hq) in Hts. now destruct Hts.
Qed.

Lemma createCurve_rejects_witness :
  let throwing := fun _ : list CurveFacade.Coordinate => Err InvalidChunking in
  let noLookup := fun _ : number -> Z -> result Curve.Point => Err InvalidInterval in
  CurveFacade.createCurve throwing noLookup [] = Err TypeError
  /\ CurveFacade.createCurve throwing noLookup [ {[ "x" := #0; "toString" := #0 ]} ]%js
     = Err TypeError
  /\ CurveFacade.createCurve throwing noLookup
       [ {[ "x" := #0; "y" := #0 ]}; {[ "x" := #1; "y" := #2 ]}; {[ "x" := #2 ]} ]%js
     = Err InvalidInput.
Proof.
  intros throwing noLookup. split; [|split].
  - apply (createCurve_rejects throwing noLookup ∅ []).
  - apply (proj1 (proj2 (createCurve_rejects throwing noLookup
                           {[ "x" := #0; "toString" := #0 ]}%js []))).
    eexists. reflexivity.
  - apply (proj2 (proj2 (createCurve_rejects throwing noLookup
                           {[ "x" := #0; "y" := #0 ]}%js
                           [ {[ "x" := #1; "y" := #2 ]}; {[ "x" := #2 ]} ]%js))
             1%nat {[ "x" := #2 ]}%js "y").
    + intros q Hq. repeat (apply elem_of_cons in Hq as [-> | Hq]); try reflexivity.
      now apply elem_of_nil in Hq.
    + reflexivity.
    + eexists. reflexivity.
    + reflexivity.
    + unfold CurveFacade.objectPrototypeKeys. intros Hin.
      repeat (apply elem_of_cons in Hin as [[=] | Hin]). now apply elem_of_nil in Hin.
Defined.

(** What a successful [createCurve] has gone through. *)
Lemma createCurve_inversion
    (makeAxis : list CurveFacade.Coordinate -> result Curve.CurveAxis)
    (createLengthLookup : (number -> Z -> result Curve.Point) -> result (number -> number))
    (points : list Curve.Point) (c : Curve.Curve) (lengthLookup : number -> number) :
  CurveFacade.createCurve makeAxis createLengthLookup points = Ok (c, lengthLookup) ->
  exists point0 rest axisPoints,
    points = point0 :: rest
    /\ Curve.axisKeys c = CurveFacade.keysOf point0
    /\ CurveFacade.collectPoints points (Curve.axisKeys c)
         (CurveFacade.initAxisPoints (Curve.axisKeys c)) = Ok axisPoints
    /\ CurveFacade.buildAxes makeAxis axisPoints (Curve.axisKeys c) ∅ = Ok (Curve.axes c)
    /\ createLengthLookup (CurveFacade.solveT c) = Ok lengthLookup.
Proof.
  unfold CurveFacade.createCurve. destruct points as [|point0 rest]; [discriminate|].
  cbn [CurveFacade.firstPoint bind]. intros H. exists point0, rest.
  destruct (CurveFacade.collectPoints (point0 :: rest) (CurveFacade.keysOf point0)
              (CurveFacade.initAxisPoints (CurveFacade.keysOf point0)))
    as [axisPoints|f] eqn:Hcollect; [|discriminate].
  cbn [bind] in H.
  destruct (CurveFacade.buildAxes makeAxis axisPoints (CurveFacade.keysOf point0) ∅)
    as [axes|f] eqn:Hbuild; [|discriminate].
  cbn [bind] in H.
  destruct (createLengthLookup _) as [l|f] eqn:Hl; [|discriminate].
  cbn [bind] in H. injection H as <- <-. cbn [Curve.axisKeys Curve.axes].
  exists axisPoints. repeat split; assumption.
Qed.

(** Every key of a curve that [createCurve] returned has an axis. *)
Lemma createCurve_wellformed
    (makeAxis : list CurveFacade.Coordinate -> result Curve.CurveAxis)
    (createLengthLookup : (number -> Z -> result Curve.Point) -> result (number -> number))
    (points : list Curve.Point) (c : Curve.Curve) (lengthLookup : number -> number) :
  CurveFacade.createCurve makeAxis createLengthLookup points = Ok (c, lengthLookup) ->
  forall key, key ∈ Curve.axisKeys c -> is_Some (Curve.axes c !! key).
Proof.
  intros H key Hkey.
  destruct (createCurve_inversion _ _ _ _ _ H)
    as (point0 & rest & axisPoints & -> & Hkeys & Hcollect & Hbuild & _).
  pose proof (createCurve_validates point0 rest) as Hv. cbv zeta in Hv.
  rewrite <- Hkeys, Hcollect in Hv. destruct Hv as (_ & Hc & _).
  assert (Hnd : NoDup (Curve.axisKeys c)) by (rewrite Hkeys; apply keysOf_spec).
  pose proof (buildAxes_spec makeAxis axisPoints (Curve.axisKeys c) ∅ Hnd Hc) as Hb.
  rewrite Hbuild in Hb. destruct Hb as [Hin _].
  destruct (Hin key Hkey) as (xs & a & _ & _ & ->). now eexists.
Qed.



(** X17.  On a curve that [createCurve] returned, [solveT] and
    [positionAt] throw nothing but the invalid-input failure, and
    [solveWhere] for one of the axis keys, given by name or by a number
    that converts to it, throws nothing but the non-monotonic-axis and
    the no-solution failures. *)
Theorem created_curve_failures
    (makeAxis : list CurveFacade.Coordinate -> result Curve.CurveAxis)
    (createLengthLookup : (number -> Z -> result Curve.Point) -> result (number -> number))
    (points : list Curve.Point) (c : Curve.Curve) (lengthLookup : number -> number) :
  CurveFacade.createCurve makeAxis createLengthLookup points = Ok (c, lengthLookup) ->
  (forall t precision f, CurveFacade.solveT c t precision = Err f -> f = InvalidInput)
  /\ (forall input normalize precision f,
        CurveFacade.positionAt c lengthLookup input normalize precision = Err f ->
        f = InvalidInput)
  /\ (forall toString axis position precision f,
        Curve.propertyKey toString axis ∈ Curve.axisKeys c ->
        Curve.solveWhere toString c axis position precision = Err f ->
        f = NonMonotonicAxis \/ f = RootUnsolvable).
Proof.
  intros H. pose proof (createCurve_wellformed _ _ _ _ _ H) as Hwf.
  assert (HsolveT : forall t precision f,
            CurveFacade.solveT c t precision = Err f -> f = InvalidInput).
  { intros t precision f. unfold CurveFacade.solveT.
    destruct (_ && _); cbn [invariant bind]; [|congruence].
    destruct (solveAll_spec c (round t PRECISION) precision (Curve.axisKeys c) ∅ Hwf)
      as (position & -> & _). discriminate. }
  split; [exact HsolveT|]. split.
  - intros input normalize precision f. unfold CurveFacade.positionAt.
    destruct (_ && _); cbn [invariant bind]; [apply HsolveT|congruence].
  - intros toString axis position precision f Haxis.
    unfold Curve.solveWhere, Curve.axisOf.
    destruct (Hwf _ Haxis) as [a ->]. cbn [bind].
    destruct (bool_decide _); cbn [invariant bind]; [|intros [= <-]; now left].
    destruct (head _) as [t|]; [|intros [= <-]; now right].
    destruct (solveRemaining_result c axis t precision (Curve.axisKeys c)
                {[ Curve.propertyKey toString axis := round position precision ]} Hwf)
      as (pt & -> & _).
    discriminate.
Qed.

Lemma created_curve_failures_witness :
  (forall t precision f,
     CurveFacade.solveT Samples.createdCurve t precision = Err f -> f = InvalidInput)
  /\ (forall input normalize precision f,
        CurveFacade.positionAt Samples.createdCurve (fun x => x) input normalize precision
        = Err f ->
        f = InvalidInput)
  /\ (forall toString axis position precision f,
        Curve.propertyKey toString axis ∈ Curve.axisKeys Samples.createdCurve ->
        Curve.solveWhere toString Samples.createdCurve axis position precision = Err f ->
        f = NonMonotonicAxis \/ f = RootUnsolvable).
Proof.
  apply (created_curve_failures Samples.makeAxis Samples.createLengthLookup Samples.points
           Samples.createdCurve (fun x => x)).
  reflexivity.
Defined.

(** ** Positions on a curve *)

(** X18.  [solveT(t)] of a curve whose keys all have an axis throws the
    invalid-input failure exactly when [t], rounded at the default
    precision, fails [rounded >= 0 && rounded <= 1], as NaN does;
    otherwise it returns a point whose keys are exactly the axis keys,
    each with the position of its axis at the rounded [t], rounded to
    [precision]. *)
Theorem solveT_cases (c : Curve.Curve) (t : number) (precision : Z) :
  (forall key, key ∈ Curve.axisKeys c -> is_Some (Curve.axes c !! key)) ->
  let rounded := round t PRECISION in
  ((rounded >=? zero)%js && (rounded <=? #1)%js = false ->
     CurveFacade.solveT c t precision = Err InvalidInput)
  /\ ((rounded >=? zero)%js && (rounded <=? #1)%js = true ->
      exists position,
        CurveFacade.solveT c t precision = Ok position
        /\ forall key,
             position !! key =
             if decide (key ∈ Curve.axisKeys c)
             then a ← Curve.axes c !! key;
                  Some (round (Curve.solvePosition a rounded) precision)
             else None)
  /\ CurveFacade.solveT c NaN precision = Err InvalidInput.
Proof.
  intros Hkeys rounded. unfold CurveFacade.solveT. fold rounded.
  split; [|split].
  - intros ->. reflexivity.
  - intros ->. cbn [invariant bind].
    destruct (solveAll_spec c rounded precision (Curve.axisKeys c) ∅ Hkeys)
      as (position & Hp & Hlookup).
    exists position. split; [exact Hp|]. intros key. rewrite Hlookup.
    destruct (decide (key ∈ Curve.axisKeys c)); [reflexivity|apply lookup_empty].
  - reflexivity.
Qed.

Lemma sampleCurve_axes (key : string) :
  key ∈ Curve.axisKeys SampleCurve.curve -> is_Some (Curve.axes SampleCurve.curve !! key).
Proof.
  cbn. intros Hin.
  repeat (apply elem_of_cons in Hin as [-> | Hin]); [ | | | now apply elem_of_nil in Hin ];
    eexists; reflexivity.
Qed.

Lemma solveT_cases_witness :
  CurveFacade.solveT SampleCurve.curve #2 PRECISION = Err InvalidInput
  /\ (exists position,
        CurveFacade.solveT SampleCurve.curve (#1 / #2)%js 0 = Ok position
        /\ position !! "y" = Some (ofZ 1) /\ position !! "w" = None)
  /\ CurveFacade.solveT SampleCurve.curve NaN PRECISION = Err InvalidInput.
Proof.
  split; [|split].
  - apply (proj1 (solveT_cases SampleCurve.curve #2 PRECISION sampleCurve_axes)).
    reflexivity.
  - destruct (proj1 (proj2 (solveT_cases SampleCurve.curve (#1 / #2)%js 0 sampleCurve_axes))
                eq_refl) as (position & Hp & Hlookup).
    exists position. split; [exact Hp|]. split.
    + rewrite Hlookup. reflexivity.
    + rewrite Hlookup. reflexivity.
  - apply (proj2 (proj2 (solveT_cases SampleCurve.curve #2 PRECISION sampleCurve_axes))).
Defined.

Lemma not_gtb_zero (x : number) :
  isNaN x = true \/ (x <=? zero)%js = true -> (x >? zero)%js = false.
Proof.
  unfold gtb, ltb, leb, SFltb, SFleb. rewrite (compare_antisym x zero).
  intros [H | H]; [now destruct x|].
  destruct (SFcompare x zero) as [[]|]; simpl in *; congruence.
Qed.

(** X19.  [positionAt(input, normalize)] throws the invalid-input
    failure whenever [input >= 0 && input <= 1] fails, as it does for
    NaN, whatever [normalize] and the length lookup are.  Otherwise a
    [normalize] that is NaN, zero or negative leaves the input as the
    parameter, whatever the length lookup is, and a [normalize] of 1
    takes the parameter from the length lookup. *)
Theorem positionAt_cases (c : Curve.Curve) (lengthLookup : number -> number)
    (input normalize : number) (precision : Z) :
  ((input >=? zero)%js && (input <=? #1)%js = false ->
     CurveFacade.positionAt c lengthLookup input normalize precision = Err InvalidInput)
  /\ ((input >=? zero)%js && (input <=? #1)%js = true ->
      (isNaN normalize = true \/ (normalize <=? zero)%js = true ->
         CurveFacade.positionAt c lengthLookup input normalize precision
         = CurveFacade.solveT c input precision)
      /\ ((normalize === #1)%js = true ->
          CurveFacade.positionAt c lengthLookup input normalize precision
          = CurveFacade.solveT c (lengthLookup input) precision))
  /\ CurveFacade.positionAt c lengthLookup NaN normalize precision = Err InvalidInput.
Proof.
  unfold CurveFacade.positionAt. split; [|split].
  - intros ->. reflexivity.
  - intros ->. cbn [invariant bind]. split.
    + intros H. now rewrite (not_gtb_zero _ H).
    + intros H. rewrite H.
      assert (Hgt : (normalize >? zero)%js = true).
      { revert H. destruct normalize as [[]|[]| |[] m e]; try discriminate; try reflexivity.
        all: cbv; discriminate. }
      now rewrite Hgt.
  - reflexivity.
Qed.

Lemma positionAt_cases_witness :
  let lengthLookup := fun x : number => (x * x)%js in
  CurveFacade.positionAt SampleCurve.curve lengthLookup #2 #1 PRECISION = Err InvalidInput
  /\ CurveFacade.positionAt SampleCurve.curve lengthLookup (#1 / #2)%js (- #1)%js PRECISION
     = CurveFacade.solveT SampleCurve.curve (#1 / #2)%js PRECISION
  /\ CurveFacade.positionAt SampleCurve.curve lengthLookup (#1 / #2)%js #1 PRECISION
     = CurveFacade.solveT SampleCurve.curve (#1 / #4)%js PRECISION.
Proof.
  intros lengthLookup. split; [|split].
  - apply (proj1 (positionAt_cases SampleCurve.curve lengthLookup #2 #1 PRECISION)).
    reflexivity.
  - apply (proj1 (proj1 (proj2 (positionAt_cases SampleCurve.curve lengthLookup
                                  (#1 / #2)%js (- #1)%js PRECISION)) eq_refl)).
    right. reflexivity.
  - apply (proj2 (proj1 (proj2 (positionAt_cases SampleCurve.curve lengthLookup
                                  (#1 / #2)%js #1 PRECISION)) eq_refl)).
    reflexivity.
Defined.

(** ** Drawing *)

(** X20.  With the strategy ['bezier'] the drawing holds no path: the
    result is the opening tag followed by the closing tag, and it
    depends on the spline through its bounds only. *)
Theorem drawSplineSVG_bezier (toString : number -> string)
    (spline spline' : DrawSplineSVG.CubicSpline) (options : DrawSplineSVG.Options) :
  DrawSplineSVG.strategy options = DrawSplineSVG.bezier ->
  (forall axis, DrawSplineSVG.bounds spline axis = DrawSplineSVG.bounds spline' axis) ->
  DrawSplineSVG.drawSplineSVG toString spline options
  = (DrawSplineSVG.openTag toString spline options +:+ "</svg>")%string
  /\ DrawSplineSVG.drawSplineSVG toString spline options
     = DrawSplineSVG.drawSplineSVG toString spline' options.
Proof.
  intros Hs Hb. unfold DrawSplineSVG.drawSplineSVG. rewrite Hs.
  split; [reflexivity|].
  unfold DrawSplineSVG.openTag, DrawSplineSVG.height. now rewrite !Hb.
Qed.

Lemma drawSplineSVG_bezier_witness :
  DrawSplineSVG.drawSplineSVG Samples.toString Samples.spline
    (Samples.options DrawSplineSVG.bezier)
  = (DrawSplineSVG.openTag Samples.toString Samples.spline (Samples.options DrawSplineSVG.bezier)
     +:+ "</svg>")%string
  /\ DrawSplineSVG.drawSplineSVG Samples.toString Samples.spline
       (Samples.options DrawSplineSVG.bezier)
     = DrawSplineSVG.drawSplineSVG Samples.toString
         {| DrawSplineSVG.bounds := DrawSplineSVG.bounds Samples.spline;
            DrawSplineSVG.solveT := fun t axis => NaN |}
         (Samples.options DrawSplineSVG.bezier).
Proof.
  apply (drawSplineSVG_bezier Samples.toString Samples.spline
           {| DrawSplineSVG.bounds := DrawSplineSVG.bounds Samples.spline;
              DrawSplineSVG.solveT := fun t axis => NaN |}
           (Samples.options DrawSplineSVG.bezier)); reflexivity.
Defined.

(** X21.  With the strategy ['sample'] and a sample count of 0 the
    path is empty; with a sample count of 1 the segment length is
    [1 / 0], and the only sample is taken at the parameter
    [0 * Infinity], which is NaN. *)
Theorem drawSplineSVG_sample_edges (toString : number -> string)
    (spline : DrawSplineSVG.CubicSpline) (options : DrawSplineSVG.Options)
    (sampleCount : nat) :
  DrawSplineSVG.strategy options = DrawSplineSVG.sample (Some sampleCount) ->
  (sampleCount <= 1)%nat ->
  let point := DrawSplineSVG.solveT spline NaN in
  let path :=
    if (sampleCount =? 0)%nat then ""%string
    else ("M" +:+ toString (point (DrawSplineSVG.axes_x options)) +:+ ","
          +:+ toString (DrawSplineSVG.height spline options
                        - point (DrawSplineSVG.axes_y options))%js)%string in
  DrawSplineSVG.drawSplineSVG toString spline options
  = ((DrawSplineSVG.openTag toString spline options
      +:+ DrawSplineSVG.pathTag path) +:+ "</svg>")%string.
Proof.
  intros Hs Hn point path. unfold DrawSplineSVG.drawSplineSVG. rewrite Hs.
  cbn [default]. do 3 f_equal.
  destruct sampleCount as [|[|n]]; [reflexivity| |lia].
  subst path point. unfold DrawSplineSVG.samplePath, DrawSplineSVG.command.
  cbn [seq foldl Nat.eqb]. reflexivity.
Qed.

Lemma drawSplineSVG_sample_edges_witness :
  exists prefix suffix,
    DrawSplineSVG.drawSplineSVG Samples.toString Samples.spline
      (Samples.options (DrawSplineSVG.sample (Some 1%nat)))
    = (prefix +:+ "MNaN,NaN" +:+ suffix)%string.
Proof.
  exists (DrawSplineSVG.openTag Samples.toString Samples.spline
            (Samples.options (DrawSplineSVG.sample (Some 1%nat)))
          +:+ "<path d=" +:+ String (Ascii.ascii_of_nat 34) "")%string.
  eexists.
  rewrite (drawSplineSVG_sample_edges Samples.toString Samples.spline
             (Samples.options (DrawSplineSVG.sample (Some 1%nat))) 1 eq_refl ltac:(lia)).
  vm_compute. reflexivity.
Defined.
